(** * ContractAI: clause segmentation, risk detection, scoring and reporting

    A shallow embedding of [demo/WorkingContractAI.py] (classes
    [ContractParser], [FixedLangChainContractAdvisor], [WorkingContractAI]),
    of [demo/ContractAISystem.py] and of the counts and icons of
    [demo/web_interface.py], and the properties of the pipeline.

    Python values are modelled as the program has them: a [str] is a sequence
    of Unicode code points, a dict read and merged by key is a finite map, an
    exception is a value of an error type threaded through a small monad. *)

From Stdlib Require Import ZArith NArith List String Ascii Bool Lia Sorted.
From stdpp Require Import gmap list.
Import ListNotations.

Set Warnings "-register-all".

(** ** Python strings *)

Module Py.

(** A Python [str]: its code points, in order. *)
Definition str := list N.

(** Source literals are written as UTF-8 text and decoded to code points. *)
Fixpoint utf8_go (pending : nat) (acc : N) (bs : list N) : str :=
  match bs with
  | [] => []
  | b :: bs' =>
      match pending with
      | O =>
          if (b <? 128)%N then b :: utf8_go O 0%N bs'
          else if (b <? 224)%N then utf8_go 1 (N.land b 31) bs'
          else if (b <? 240)%N then utf8_go 2 (N.land b 15) bs'
          else utf8_go 3 (N.land b 7) bs'
      | S O => (acc * 64 + N.land b 63)%N :: utf8_go O 0%N bs'
      | S p => utf8_go p (acc * 64 + N.land b 63)%N bs'
      end
  end.

Definition utf8 (s : string) : str :=
  utf8_go O 0%N (map N_of_ascii (list_ascii_of_string s)).

Definition newline : N := 10%N.

(** [bool(l)] for a list or a [str] *)
Definition truthy {A} (l : list A) : bool :=
  match l with [] => false | _ :: _ => true end.

(** [sep.join(parts)] *)
Fixpoint join (sep : str) (parts : list str) : str :=
  match parts with
  | [] => []
  | x :: rest =>
      match rest with
      | [] => x
      | _ :: _ => x ++ sep ++ join sep rest
      end
  end.

(** [s.split(c)] for a one-character separator: never the empty list. *)
Fixpoint split (c : N) (s : str) : list str :=
  match s with
  | [] => [[]]
  | x :: s' =>
      if (x =? c)%N then [] :: split c s'
      else match split c s' with
           | h :: t => (x :: h) :: t
           | [] => [[x]]
           end
  end.

(** [s.startswith(p)] *)
Fixpoint startswith (p s : str) : bool :=
  match p, s with
  | [], _ => true
  | _ :: _, [] => false
  | a :: p', b :: s' => (a =? b)%N && startswith p' s'
  end.

(** [kw in s] *)
Fixpoint contains (kw s : str) : bool :=
  startswith kw s ||
  match s with
  | [] => false
  | _ :: s' => contains kw s'
  end.

(** [any(w in s for w in words)] *)
Definition any_in (words : list str) (s : str) : bool :=
  existsb (fun w => contains w s) words.

(** [c.isspace()]: the characters [str.strip()] removes. *)
Definition isspace (c : N) : bool :=
  ((9 <=? c) && (c <=? 13) || (28 <=? c) && (c <=? 32) ||
   (c =? 133) || (c =? 160) || (c =? 5760) ||
   (8192 <=? c) && (c <=? 8202) ||
   (c =? 8232) || (c =? 8233) || (c =? 8239) || (c =? 8287) ||
   (c =? 12288))%N.

Fixpoint lstrip (s : str) : str :=
  match s with
  | [] => []
  | c :: s' => if isspace c then lstrip s' else s
  end.

Definition rstrip (s : str) : str := rev (lstrip (rev s)).

(** [s.strip()] *)
Definition strip (s : str) : str := rstrip (lstrip s).

(** First code points of the runs of ten decimal digits of Unicode 14
    (general category Nd); the mathematical digits U+1D7CE..U+1D7FF form
    one run of fifty. *)
Definition decimal_runs : list N :=
  [48; 1632; 1776; 1984; 2406; 2534; 2662; 2790; 2918; 3046; 3174; 3302;
   3430; 3558; 3664; 3792; 3872; 4160; 4240; 6112; 6160; 6470; 6608; 6784;
   6800; 6992; 7088; 7232; 7248; 42528; 43216; 43264; 43472; 43504; 43600;
   44016; 65296; 66720; 68912; 69734; 69872; 69942; 70096; 70384; 70736;
   70864; 71248; 71360; 71472; 71904; 72016; 72784; 73040; 73120; 92768;
   92864; 93008; 123200; 123632; 125264; 130032]%N.

(** What [\d] matches in a [str] pattern: any Unicode decimal digit. *)
Definition isdecimal (c : N) : bool :=
  existsb (fun lo => (lo <=? c) && (c <=? lo + 9))%N decimal_runs ||
  ((120782 <=? c) && (c <=? 120831))%N.

Definition digit_char (d : N) : N := (48 + d)%N.

Fixpoint uint_str (d : Decimal.uint) : str :=
  match d with
  | Decimal.Nil => []
  | Decimal.D0 d' => digit_char 0 :: uint_str d'
  | Decimal.D1 d' => digit_char 1 :: uint_str d'
  | Decimal.D2 d' => digit_char 2 :: uint_str d'
  | Decimal.D3 d' => digit_char 3 :: uint_str d'
  | Decimal.D4 d' => digit_char 4 :: uint_str d'
  | Decimal.D5 d' => digit_char 5 :: uint_str d'
  | Decimal.D6 d' => digit_char 6 :: uint_str d'
  | Decimal.D7 d' => digit_char 7 :: uint_str d'
  | Decimal.D8 d' => digit_char 8 :: uint_str d'
  | Decimal.D9 d' => digit_char 9 :: uint_str d'
  end.

(** [str(n)] for a natural number. *)
Definition str_of_nat (n : nat) : str := uint_str (Nat.to_uint n).

End Py.

(** ** The regular expressions of the program

    [re.match] and [re.search] are used for their truth value only, so a
    pattern is modelled by the language it denotes, decided with
    derivatives. No flag is passed: [.] excludes the newline, [\d] is any
    Unicode decimal digit, [^] holds only at the start of the text. *)

Module Re.
Import Py.

Inductive regex :=
| Void                        (* matches nothing *)
| Eps                         (* the empty string *)
| Chr (c : N)                 (* a literal character *)
| Dot                         (* .  any character but the newline *)
| Digit                       (* \d *)
| OneOf (cs : str)            (* [...] *)
| Cat (r1 r2 : regex)
| Alt (r1 r2 : regex)
| Star (r : regex).

Definition Plus (r : regex) : regex := Cat r (Star r).
Definition Opt (r : regex) : regex := Alt r Eps.

(** A literal run of characters. *)
Fixpoint Lit (s : str) : regex :=
  match s with
  | [] => Eps
  | c :: s' => Cat (Chr c) (Lit s')
  end.

(** The language of a pattern: [matches r s] when the whole of [s] is a
    match of [r]. *)
Inductive matches : regex -> str -> Prop :=
| MEps : matches Eps []
| MChr c : matches (Chr c) [c]
| MDot c : c <> newline -> matches Dot [c]
| MDigit c : isdecimal c = true -> matches Digit [c]
| MOneOf c cs : In c cs -> matches (OneOf cs) [c]
| MCat r1 r2 s1 s2 :
    matches r1 s1 -> matches r2 s2 -> matches (Cat r1 r2) (s1 ++ s2)
| MAltL r1 r2 s : matches r1 s -> matches (Alt r1 r2) s
| MAltR r1 r2 s : matches r2 s -> matches (Alt r1 r2) s
| MStarNil r : matches (Star r) []
| MStarApp r s1 s2 :
    matches r s1 -> matches (Star r) s2 -> matches (Star r) (s1 ++ s2).

Fixpoint nullable (r : regex) : bool :=
  match r with
  | Void | Chr _ | Dot | Digit | OneOf _ => false
  | Eps | Star _ => true
  | Cat r1 r2 => nullable r1 && nullable r2
  | Alt r1 r2 => nullable r1 || nullable r2
  end.

Definition of_bool (b : bool) : regex := if b then Eps else Void.

Fixpoint deriv (c : N) (r : regex) : regex :=
  match r with
  | Void | Eps => Void
  | Chr d => of_bool (c =? d)%N
  | Dot => of_bool (negb (c =? newline)%N)
  | Digit => of_bool (isdecimal c)
  | OneOf cs => of_bool (existsb (N.eqb c) cs)
  | Cat r1 r2 =>
      if nullable r1 then Alt (Cat (deriv c r1) r2) (deriv c r2)
      else Cat (deriv c r1) r2
  | Alt r1 r2 => Alt (deriv c r1) (deriv c r2)
  | Star r1 => Cat (deriv c r1) (Star r1)
  end.

(** [s] belongs to the language of [r]. *)
Fixpoint fullmatch (r : regex) (s : str) : bool :=
  match s with
  | [] => nullable r
  | c :: s' => fullmatch (deriv c r) s'
  end.

(** [bool(re.match(r, s))]: some prefix of [s] is matched. *)
Fixpoint re_match (r : regex) (s : str) : bool :=
  nullable r ||
  match s with
  | [] => false
  | c :: s' => re_match (deriv c r) s'
  end.

(** [bool(re.search(r, s))]: a match starts somewhere in [s]. *)
Fixpoint re_search (r : regex) (s : str) : bool :=
  re_match r s ||
  match s with
  | [] => false
  | _ :: s' => re_search r s'
  end.

End Re.

(** ** Exceptions

    Code that can raise returns a [result]; [try]/[except Exception] is a
    match on it. *)

Module Exn.
Import Py.

Inductive exn :=
| ZeroDivisionError
| KeyError (key : str)
| TypeError
| Wrapped (prefix : str) (cause : exn)   (* Exception(prefix + str(cause)) *)
| Exception (msg : str).                 (* any other exception, as a library raises *)

Inductive result (A : Type) :=
| Ok (a : A)
| Raise (e : exn).
Arguments Ok {A} a.
Arguments Raise {A} e.

#[export] Instance result_ret : MRet result := fun A a => Ok a.
#[export] Instance result_bind : MBind result := fun A B f m =>
  match m with
  | Ok a => f a
  | Raise e => Raise e
  end.
#[export] Instance result_fmap : FMap result := fun A B f m =>
  match m with
  | Ok a => Ok (f a)
  | Raise e => Raise e
  end.

End Exn.

(** ** ContractParser *)

Module ContractParser.
Import Py Re Exn.

(** The [metadata] dict of a paragraph, as [load_contract] builds it. *)
Record metadata := {
  source : str;
  paragraph_id : Z;
  type : str
}.

(** A paragraph record: [{'page_content': ..., 'metadata': ...}]. *)
Record document := {
  page_content : str;
  doc_metadata : metadata
}.

(** The [metadata] dict of a clause:
    [{**metadata, 'clause_title': .., 'type': 'main_clause', 'sub_clause_count': ..}]. *)
Record clause_metadata := {
  clause_source : str;
  clause_paragraph_id : Z;
  clause_title : str;
  clause_type : str;
  sub_clause_count : nat
}.

Record clause := {
  clause_content : str;
  clause_meta : clause_metadata
}.

(** [self.main_clause_patterns]; each is applied with [re.match], which
    anchors at the start as the leading [^] does. *)
Definition main_clause_patterns : list regex :=
  [ (* ^第[一二三四五六七八九十零]+条 *)
    Cat (Lit (utf8 "第")) (Cat (Plus (OneOf (utf8 "一二三四五六七八九十零"))) (Lit (utf8 "条")));
    (* ^第\d+条 *)
    Cat (Lit (utf8 "第")) (Cat (Plus Digit) (Lit (utf8 "条")));
    (* ^ARTICLE *)
    Lit (utf8 "ARTICLE");
    (* ^SECTION *)
    Lit (utf8 "SECTION") ].

(** [self.sub_clause_patterns] *)
Definition sub_clause_patterns : list regex :=
  [ (* ^\d+\.\d+ *)
    Cat (Plus Digit) (Cat (Lit (utf8 ".")) (Plus Digit));
    (* ^[一二三四五六七八九十]、 *)
    Cat (OneOf (utf8 "一二三四五六七八九十")) (Lit (utf8 "、"));
    (* ^\d+、 *)
    Cat (Plus Digit) (Lit (utf8 "、")) ].

Definition _is_main_clause (text : str) : bool :=
  existsb (fun pattern => re_match pattern (strip text)) main_clause_patterns.

Definition _is_sub_clause (text : str) : bool :=
  existsb (fun pattern => re_match pattern (strip text)) sub_clause_patterns.

(** ['\n'.join(main_clause + sub_clauses)] *)
Definition _combine_clause_content (main_clause sub_clauses : list str) : str :=
  join [newline] (main_clause ++ sub_clauses).

(** The local variables of [split_into_clauses]. [metadata] is the loop
    variable of that name: unbound until a paragraph has been read. *)
Record state := {
  clauses : list clause;
  current_main_clause : list str;
  current_main_title : str;
  current_sub_clauses : list str;
  last_metadata : option metadata
}.

Definition initial : state :=
  {| clauses := [];
     current_main_clause := [];
     current_main_title := utf8 "合同前言";
     current_sub_clauses := [];
     last_metadata := None |}.

(** The clause record appended by both flushes. *)
Definition make_clause (md : metadata) (title : str) (main subs : list str) : clause :=
  {| clause_content := _combine_clause_content main subs;
     clause_meta :=
       {| clause_source := source md;
          clause_paragraph_id := paragraph_id md;
          clause_title := title;
          clause_type := utf8 "main_clause";
          sub_clause_count := length subs |} |}.

(** [current_sub_clauses[-1] += "\n" + text] *)
Fixpoint append_to_last (subs : list str) (text : str) : list str :=
  match subs with
  | [] => []
  | s :: rest =>
      match rest with
      | [] => [s ++ [newline] ++ text]
      | _ :: _ => s :: append_to_last rest text
      end
  end.

(** One iteration of the loop over [documents]. *)
Definition step (st : state) (doc : document) : state :=
  let text := page_content doc in
  let md := doc_metadata doc in
  if _is_main_clause text then
    {| clauses :=
         if truthy (current_main_clause st) || truthy (current_sub_clauses st)
         then clauses st ++
              [make_clause md (current_main_title st)
                 (current_main_clause st) (current_sub_clauses st)]
         else clauses st;
       current_main_clause := [text];
       current_main_title := text;
       current_sub_clauses := [];
       last_metadata := Some md |}
  else if _is_sub_clause text then
    {| clauses := clauses st;
       current_main_clause := current_main_clause st;
       current_main_title := current_main_title st;
       current_sub_clauses := current_sub_clauses st ++ [text];
       last_metadata := Some md |}
  else if truthy (current_sub_clauses st) then
    {| clauses := clauses st;
       current_main_clause := current_main_clause st;
       current_main_title := current_main_title st;
       current_sub_clauses := append_to_last (current_sub_clauses st) text;
       last_metadata := Some md |}
  else
    {| clauses := clauses st;
       current_main_clause := current_main_clause st ++ [text];
       current_main_title := current_main_title st;
       current_sub_clauses := current_sub_clauses st;
       last_metadata := Some md |}.

(** The flush after the loop. It reads [metadata]; with no paragraph read
    the accumulators are empty and the branch is not entered. *)
Definition finish (st : state) : list clause :=
  if truthy (current_main_clause st) || truthy (current_sub_clauses st) then
    match last_metadata st with
    | Some md =>
        clauses st ++
        [make_clause md (current_main_title st)
           (current_main_clause st) (current_sub_clauses st)]
    | None => clauses st
    end
  else clauses st.

Definition split_into_clauses (documents : list document) : list clause :=
  finish (fold_left step documents initial).

(** [load_contract]: the non-blank paragraphs of the file, stripped, each
    with its index among all paragraphs. Opening the file and reading the
    paragraph texts is the [docx] library's part. *)
Section load_contract.
Variable docx_paragraphs : str -> result (list str).

Fixpoint content_from (file_path : str) (i : Z) (paragraphs : list str) : list document :=
  match paragraphs with
  | [] => []
  | paragraph :: rest =>
      let text := strip paragraph in
      if truthy text then
        {| page_content := text;
           doc_metadata := {| source := file_path;
                              paragraph_id := i;
                              type := utf8 "paragraph" |} |}
        :: content_from file_path (i + 1) rest
      else content_from file_path (i + 1) rest
  end.

Definition load_contract (file_path : str) : result (list document) :=
  match docx_paragraphs file_path with
  | Ok paragraphs => Ok (content_from file_path 0 paragraphs)
  | Raise e => Raise (Wrapped (utf8 "解析Word文档失败: ") e)
  end.
End load_contract.

End ContractParser.


(** ** Findings, values and dicts *)

Module Value.
Import Py Exn ContractParser.

Inductive severity := medium | high.

Definition severity_eqb (a b : severity) : bool :=
  match a, b with
  | medium, medium | high, high => true
  | _, _ => false
  end.

(** A finding: the dict literal [_detect_detailed_risks] appends
    (keys ['type'], ['level'], ['description'], ['position'], ['category']). *)
Record risk := {
  risk_type : str;
  level : severity;
  description : str;
  position : str;
  category : str
}.

(** What a key of an analysis dict can hold: the values the program builds
    itself, and the values [json.loads] builds from the model's reply
    (numbers restricted to integers: a float, which [json.loads] can
    return as well, is outside this model, and a statement that reads a
    number out of a reply says that it is an integer). *)
Inductive value :=
| VNone
| VBool (b : bool)
| VInt (z : Z)
| VStr (s : str)
| VList (l : list value)
| VDict (d : gmap str value)
| VRisks (l : list risk)          (* the list of finding dicts *)
| VMeta (m : clause_metadata).    (* the metadata dict of a clause *)

Abbreviation dict := (gmap str value).

(** [{**a, **b}]: the keys of both, [b] winning on a shared key. *)
Definition merge (a b : dict) : dict := b ∪ a.

(** [d[k]] *)
Definition getitem (d : dict) (k : str) : result value :=
  match d !! k with
  | Some v => Ok v
  | None => Raise (KeyError k)
  end.

(** [k in d] *)
Definition has_key (d : dict) (k : str) : bool :=
  match d !! k with
  | Some _ => true
  | None => false
  end.

(** [len(v)] *)
Definition len (v : value) : result Z :=
  match v with
  | VStr s => Ok (Z.of_nat (length s))
  | VList l => Ok (Z.of_nat (length l))
  | VDict d => Ok (Z.of_nat (size d))
  | VRisks l => Ok (Z.of_nat (length l))
  | VMeta _ => Ok 5%Z
  | VNone | VBool _ | VInt _ => Raise TypeError
  end.

(** [v] as an operand of [<], [<=] and [+] against an [int]. *)
Definition as_int (v : value) : result Z :=
  match v with
  | VInt z => Ok z
  | VBool b => Ok (Z.b2z b)
  | VNone | VStr _ | VList _ | VDict _ | VRisks _ | VMeta _ => Raise TypeError
  end.

End Value.

(** ** FixedLangChainContractAdvisor *)

Module FixedLangChainContractAdvisor.
Import Py Exn Value.

(** The three strings [_build_complete_prompt] interpolates into its fixed
    template; they determine the prompt. *)
Record prompt := {
  prompt_title : str;
  prompt_content : str;
  prompt_risks : str
}.

Definition required_fields : list str :=
  [utf8 "risk_analysis"; utf8 "specific_risks"; utf8 "modification_suggestions";
   utf8 "legal_basis"; utf8 "negotiation_tips"; utf8 "risk_level"].

(** The six keys as [_extract_from_text] and [_fallback_analysis] return them. *)
Definition fields (risk_analysis : str) (specific_risks modification_suggestions : list str)
    (legal_basis negotiation_tips risk_level : str) : dict :=
  <[utf8 "risk_analysis" := VStr risk_analysis]>
  (<[utf8 "specific_risks" := VList (map VStr specific_risks)]>
  (<[utf8 "modification_suggestions" := VList (map VStr modification_suggestions)]>
  (<[utf8 "legal_basis" := VStr legal_basis]>
  (<[utf8 "negotiation_tips" := VStr negotiation_tips]>
  (<[utf8 "risk_level" := VStr risk_level]> ∅))))).

(** The local variables of [_extract_from_text] its loop assigns. *)
Record extracted := {
  risk_analysis : str;
  modification_suggestions : list str;
  legal_basis : str;
  negotiation_tips : str;
  risk_level : str
}.

Definition extract_line (st : extracted) (raw : str) : extracted :=
  let line := strip raw in
  if negb (truthy line) || startswith (utf8 "{") line || startswith (utf8 "}") line then st
  else if contains (utf8 "风险") line && (10 <? length line)%nat then
    {| risk_analysis := line;
       modification_suggestions := modification_suggestions st;
       legal_basis := legal_basis st;
       negotiation_tips := negotiation_tips st;
       risk_level := risk_level st |}
  else if contains (utf8 "建议") line || contains (utf8 "修改") line then
    {| risk_analysis := risk_analysis st;
       modification_suggestions := modification_suggestions st ++ [line];
       legal_basis := legal_basis st;
       negotiation_tips := negotiation_tips st;
       risk_level := risk_level st |}
  else if contains (utf8 "法律") line || contains (utf8 "依据") line then
    {| risk_analysis := risk_analysis st;
       modification_suggestions := modification_suggestions st;
       legal_basis := line;
       negotiation_tips := negotiation_tips st;
       risk_level := risk_level st |}
  else if contains (utf8 "谈判") line || contains (utf8 "协商") line then
    {| risk_analysis := risk_analysis st;
       modification_suggestions := modification_suggestions st;
       legal_basis := legal_basis st;
       negotiation_tips := line;
       risk_level := risk_level st |}
  else if contains (utf8 "高风险") line then
    {| risk_analysis := risk_analysis st;
       modification_suggestions := modification_suggestions st;
       legal_basis := legal_basis st;
       negotiation_tips := negotiation_tips st;
       risk_level := utf8 "高风险" |}
  else if contains (utf8 "低风险") line then
    {| risk_analysis := risk_analysis st;
       modification_suggestions := modification_suggestions st;
       legal_basis := legal_basis st;
       negotiation_tips := negotiation_tips st;
       risk_level := utf8 "低风险" |}
  else st.

Definition _extract_from_text (text : str) : dict :=
  let st := fold_left extract_line (split newline text)
              {| risk_analysis := [];
                 modification_suggestions := [];
                 legal_basis := utf8 "基于标准合同审查规范";
                 negotiation_tips := utf8 "建议明确关键商业条款";
                 risk_level := utf8 "中风险" |} in
  fields
    (if truthy (risk_analysis st) then risk_analysis st
     else if (300 <? length text)%nat then firstn 300 text ++ utf8 "..." else text)
    (firstn 3 [])
    (firstn 3 (if truthy (modification_suggestions st) then modification_suggestions st
               else [utf8 "建议由专业法务人员详细审查"]))
    (legal_basis st) (negotiation_tips st) (risk_level st).

(** The loop of [_generate_fallback_suggestions]: the first finding that
    meets a condition gives the one suggestion. *)
Fixpoint fallback_suggestions_loop (risks : list risk) : list str :=
  match risks with
  | [] => []
  | r :: rest =>
      if any_in [utf8 "付款"; utf8 "支付"; utf8 "金额"] (description r) then
        [utf8 "建议明确付款时间和条件：'验收合格后15个工作日内支付剩余款项'"]
      else if any_in [utf8 "验收"; utf8 "标准"; utf8 "交付"] (description r) then
        [utf8 "建议具体化验收标准：参照具体的技术规格和验收 checklist"]
      else if contains (utf8 "违约") (description r) then
        [utf8 "建议明确违约金计算方式和上限"]
      else if contains (utf8 "管辖") (description r) then
        [utf8 "建议选择中立的管辖法院"]
      else fallback_suggestions_loop rest
  end.

Definition _generate_fallback_suggestions (risks : list risk) : list str :=
  let suggestions := fallback_suggestions_loop risks in
  if truthy suggestions then suggestions
  else [utf8 "建议由专业法务人员审查此条款"].

Section advisor.
(** The libraries the advisor calls. *)
(** [chain.invoke] on the prompt: the reply text, or the exception raised. *)
Variable chain_invoke : prompt -> result str.
(** [re.search(pattern, s, re.DOTALL)] and [.group()] of its match. *)
Variable re_search_group : str -> str -> option str.
(** [re.sub(pattern, repl, s)] *)
Variable re_sub : str -> str -> str -> str.
(** [json.loads]; the text it is given starts with a brace, so what it
    returns is a dict. *)
Variable json_loads : str -> result dict.
(** [list(set(l))]: the distinct elements, in the order the set iterates. *)
Variable list_set : list str -> list str.

Definition _clean_json_string (json_str : str) : str :=
  let json_str := re_sub (utf8 "```json\s*|\s*```") [] json_str in
  let json_str := re_sub (utf8 "```\s*|\s*```") [] json_str in
  let json_str := re_sub (utf8 ",\s*}") (utf8 "}") json_str in
  let json_str := re_sub (utf8 ",\s*]") (utf8 "]") json_str in
  strip json_str.

Definition _parse_llm_response (response : str) : dict :=
  let cleaned_response := strip response in
  match re_search_group (utf8 "\{[^{}]*\{.*\}[^{}]*\}|\{.*\}") cleaned_response with
  | Some json_str =>
      match json_loads (_clean_json_string json_str) with
      | Ok result =>
          if forallb (has_key result) required_fields then result
          else _extract_from_text cleaned_response
      | Raise _ => _extract_from_text response
      end
  | None => _extract_from_text cleaned_response
  end.

Definition _fallback_analysis (clause_content : str) (risks : list risk) : dict :=
  let risk_types := list_set (map risk_type risks) in
  fields
    (utf8 "识别到" ++ str_of_nat (length risks) ++ utf8 "个风险点，涉及：" ++
     join (utf8 ", ") risk_types)
    (firstn 3 (map description risks))
    (_generate_fallback_suggestions risks)
    (utf8 "基于标准合同审查规范")
    (utf8 "建议明确关键商业条款")
    (if (3 <? length risks)%nat then utf8 "高风险"
     else if truthy risks then utf8 "中风险" else utf8 "低风险").

(** The text of the findings in the prompt. *)
Definition risks_text (risks : list risk) : str :=
  let risk_descriptions :=
    map (fun r => utf8 "- " ++ description r ++ utf8 " (" ++ risk_type r ++ utf8 ")") risks in
  if truthy risk_descriptions then join [newline] risk_descriptions
  else utf8 "未发现明显风险".

Definition _build_complete_prompt (clause_content clause_title : str) (risks : list risk) : prompt :=
  {| prompt_title := clause_title;
     prompt_content := clause_content;
     prompt_risks := risks_text risks |}.

(** The whole body is inside [try]; the handler returns the fallback. *)
Definition analyze_clause_with_llm (clause_content clause_title : str) (risks : list risk) : dict :=
  match chain_invoke (_build_complete_prompt clause_content clause_title risks) with
  | Ok response => _parse_llm_response response
  | Raise _ => _fallback_analysis clause_content risks
  end.
End advisor.

End FixedLangChainContractAdvisor.

(** ** WorkingContractAI *)

Module WorkingContractAI.
Import Py Re Exn ContractParser Value.
Local Open Scope Z_scope.

(** One entry of the rule table. *)
Record rule := {
  name : str;
  keywords : list str;
  patterns : list (regex * str)
}.

(** [p1 .* p2]: two literals with anything but a newline between them. *)
Definition gap (p1 p2 : str) : regex := Cat (Lit p1) (Cat (Star Dot) (Lit p2)).

(** [_load_risk_rules]: the table, in the order the dict iterates. *)
Definition _load_risk_rules : list (str * rule) :=
  [ (utf8 "financial_risk",
     {| name := utf8 "财务风险";
        keywords := [utf8 "支付"; utf8 "付款"; utf8 "违约金"; utf8 "价格"; utf8 "金额";
                     utf8 "赔偿"; utf8 "利息"; utf8 "预付款"; utf8 "尾款"];
        patterns :=
          [ (* 剩余款项.*验收合格后支付 *)
            (gap (utf8 "剩余款项") (utf8 "验收合格后支付"), utf8 "付款条件模糊");
            (* 支付.*总价.*50% *)
            (Cat (Lit (utf8 "支付")) (Cat (Star Dot) (gap (utf8 "总价") (utf8 "50%"))),
             utf8 "预付款比例较高");
            (* 违约金.*\d+\.?\d*% *)
            (Cat (Lit (utf8 "违约金"))
               (Cat (Star Dot)
                  (Cat (Plus Digit)
                     (Cat (Opt (Lit (utf8 "."))) (Cat (Star Digit) (Lit (utf8 "%")))))),
             utf8 "违约金比例需确认") ] |});
    (utf8 "delivery_risk",
     {| name := utf8 "交付风险";
        keywords := [utf8 "交付"; utf8 "验收"; utf8 "标准"; utf8 "时间"; utf8 "期限";
                     utf8 "延迟"; utf8 "尽快"; utf8 "验收标准"];
        patterns :=
          [ (* 按照.*标准验收 *)
            (gap (utf8 "按照") (utf8 "标准验收"), utf8 "验收标准模糊");
            (* 尽快处理 *)
            (Lit (utf8 "尽快处理"), utf8 "响应时间不明确");
            (* 行业通用标准 *)
            (Lit (utf8 "行业通用标准"), utf8 "标准定义不清") ] |});
    (utf8 "legal_risk",
     {| name := utf8 "法律风险";
        keywords := [utf8 "争议"; utf8 "诉讼"; utf8 "管辖"; utf8 "知识产权"; utf8 "保密";
                     utf8 "责任"; utf8 "纠纷"];
        patterns :=
          [ (* 乙方承担全部责任 *)
            (Lit (utf8 "乙方承担全部责任"), utf8 "责任分配不均");
            (* 甲方所在地.*诉讼 *)
            (gap (utf8 "甲方所在地") (utf8 "诉讼"), utf8 "管辖地单方有利");
            (* 友好协商解决 *)
            (Lit (utf8 "友好协商解决"), utf8 "解决方式模糊") ] |}) ].

(** The index of the first line holding the keyword. *)
Fixpoint find_line (keyword : str) (lines : list str) (i : nat) : option nat :=
  match lines with
  | [] => None
  | line :: rest =>
      if contains keyword line then Some i else find_line keyword rest (S i)
  end.

Definition _find_keyword_position (content keyword : str) : str :=
  match find_line keyword (split newline content) 0 with
  | Some i => utf8 "第" ++ str_of_nat (i + 1) ++ utf8 "行"
  | None => utf8 "条款内容"
  end.

(** The findings one rule contributes: a medium one per keyword present,
    then a high one per pattern found. *)
Definition rule_risks (content : str) (risk_id : str) (r : rule) : list risk :=
  flat_map (fun keyword =>
              if contains keyword content then
                [ {| risk_type := name r;
                     level := medium;
                     description := utf8 "发现关键词: " ++ keyword;
                     position := _find_keyword_position content keyword;
                     category := risk_id |} ]
              else []) (keywords r)
  ++
  flat_map (fun p : regex * str =>
              if re_search (fst p) content then
                [ {| risk_type := name r;
                     level := high;
                     description := snd p;
                     position := utf8 "条款内容";
                     category := risk_id |} ]
              else []) (patterns r).

Definition _detect_detailed_risks (content : str) : list risk :=
  flat_map (fun entry : str * rule => rule_risks content (fst entry) (snd entry))
    _load_risk_rules.

(** [len([r for r in risks if r['level'] == l])] *)
Definition count_level (l : severity) (risks : list risk) : Z :=
  Z.of_nat (length (List.filter (fun r => severity_eqb (level r) l) risks)).

Definition _calculate_risk_score (risks : list risk) : Z :=
  if negb (truthy risks) then 85
  else
    let high_risks := count_level high risks in
    let medium_risks := count_level medium risks in
    let base_score := 85 in
    let score_reduction := high_risks * 20 + medium_risks * 10 in
    Z.max 30 (base_score - score_reduction).

Definition _get_risk_level (score : Z) : str :=
  if (80 <=? score)%Z then utf8 "低风险"
  else if (60 <=? score)%Z then utf8 "中风险"
  else utf8 "高风险".

(** The dict [_basic_risk_analysis] returns. *)
Record basic_analysis := {
  risks : list risk;
  risk_score : Z;
  review_status : str
}.

Definition _basic_risk_analysis (c : clause) : basic_analysis :=
  let content := clause_content c in
  let risks := _detect_detailed_risks content in
  {| risks := risks;
     risk_score := _calculate_risk_score risks;
     review_status := if truthy risks then utf8 "待审核" else utf8 "低风险" |}.

(** The two dicts as finite maps, for [**]. *)
Definition basic_items (b : basic_analysis) : dict :=
  <[utf8 "risks" := VRisks (risks b)]>
  (<[utf8 "risk_score" := VInt (risk_score b)]>
  (<[utf8 "review_status" := VStr (review_status b)]> ∅)).

Definition clause_items (c : clause) : dict :=
  <[utf8 "page_content" := VStr (clause_content c)]>
  (<[utf8 "metadata" := VMeta (clause_meta c)]> ∅).

(** [c['risk_score']] of every analysis, as the comparisons and the sum read it. *)
Definition risk_scores (analysis : list dict) : result (list Z) :=
  mapM (fun c => v ← getitem c (utf8 "risk_score"); as_int v) analysis.

(** [len(clause['risks'])] of every analysis. *)
Definition risk_counts (analysis : list dict) : result (list Z) :=
  mapM (fun c => v ← getitem c (utf8 "risks"); len v) analysis.

Definition sum (l : list Z) : Z := fold_right Z.add 0%Z l.

(** [len([s for s in scores if p(s)])] *)
Definition count (p : Z -> bool) (scores : list Z) : nat :=
  length (List.filter p scores).

Definition _generate_summary (analysis : list dict) : result str :=
  scores ← risk_scores analysis;
  let high_risk_count := count (fun s => s <? 60)%Z scores in
  mret (if (high_risk_count =? 0)%nat then
          utf8 "合同整体风险可控，建议关注个别中风险条款。"
        else if (high_risk_count <=? 2)%nat then
          utf8 "合同存在少量高风险条款，建议重点审查付款条件、违约责任等条款。"
        else utf8 "合同存在多处高风险条款，建议法务部门重点审查。").

(** The report dict. *)
Record report := {
  overall_risk_score : Z;
  risk_level : str;
  total_clauses : nat;
  total_risks_found : Z;
  high_risk_clauses : nat;
  medium_risk_clauses : nat;
  clauses_analysis : list dict;
  summary : str;
  llm_enhanced : bool;
  timestamp : str
}.

(** What [analyze_contract] returns: the report, or the dict
    [{'error': '合同分析失败: ' + str(e)}] of its handler. *)
Inductive outcome :=
| Report (r : report)
| Error (e : exn).

Section instance.
(** [self.use_llm] *)
Variable use_llm : bool.
(** [self.llm_advisor.analyze_clause_with_llm]: the enrichment capability.
    It returns a dict, or raises. *)
Variable llm_advisor : str -> str -> list risk -> result dict.
(** The paragraph texts of the file, read by the [docx] library. *)
Variable docx_paragraphs : str -> result (list str).

Definition _generate_report (analysis : list dict) : result report :=
  counts ← risk_counts analysis;
  let total_risks := sum counts in
  scores ← risk_scores analysis;
  let high_risk_clauses := count (fun s => s <? 60)%Z scores in
  let medium_risk_clauses := count (fun s => (60 <=? s) && (s <? 75))%Z scores in
  if (length analysis =? 0)%nat then Raise ZeroDivisionError
  else
    let overall_score := (sum scores / Z.of_nat (length analysis))%Z in
    summary ← _generate_summary analysis;
    mret {| overall_risk_score := overall_score;
            risk_level := _get_risk_level overall_score;
            total_clauses := length analysis;
            total_risks_found := total_risks;
            high_risk_clauses := high_risk_clauses;
            medium_risk_clauses := medium_risk_clauses;
            clauses_analysis := analysis;
            summary := summary;
            llm_enhanced := use_llm;
            timestamp := utf8 "2024-01-01 10:00:00" |}.

(** The body of the loop of [analyze_contract]: the dict appended for
    one clause. *)
Definition analyze_clause (use_llm_for_high_risk : bool) (c : clause) : dict :=
  let clause_title := clause_title (clause_meta c) in
  let basic := _basic_risk_analysis c in
  let clause_analysis :=
    if use_llm && (negb use_llm_for_high_risk || (risk_score basic <? 70)%Z) then
      match llm_advisor (clause_content c) clause_title (risks basic) with
      | Ok llm_analysis => merge (basic_items basic) llm_analysis
      | Raise _ => basic_items basic
      end
    else basic_items basic in
  merge (clause_items c) clause_analysis.

(** [analyze_contract] from the clauses on. *)
Definition analyze_documents (documents : list document) (use_llm_for_high_risk : bool)
    : result report :=
  let clauses := split_into_clauses documents in
  let analyzed_clauses := map (analyze_clause use_llm_for_high_risk) clauses in
  _generate_report analyzed_clauses.

Definition analyze_contract (file_path : str) (use_llm_for_high_risk : bool) : outcome :=
  match documents ← load_contract docx_paragraphs file_path;
        analyze_documents documents use_llm_for_high_risk with
  | Ok report => Report report
  | Raise e => Error e
  end.
End instance.

(** The class builds its advisor from [FixedLangChainContractAdvisor],
    whose method returns on every path. *)
Definition fixed_advisor
    (chain_invoke : FixedLangChainContractAdvisor.prompt -> result str)
    (re_search_group : str -> str -> option str) (re_sub : str -> str -> str -> str)
    (json_loads : str -> result dict) (list_set : list str -> list str)
    : str -> str -> list risk -> result dict :=
  fun clause_content clause_title risks =>
    Ok (FixedLangChainContractAdvisor.analyze_clause_with_llm
          chain_invoke re_search_group re_sub json_loads list_set
          clause_content clause_title risks).

End WorkingContractAI.

(** ** The dashboard ([web_interface.py]) *)

Module ContractAIWeb.
Import Py Exn Value WorkingContractAI.

(** The three counts of [display_risk_chart]: low, medium, high. *)
Definition display_risk_chart (r : report) : result (nat * nat * nat) :=
  scores ← risk_scores (clauses_analysis r);
  mret (count (fun s => 80 <=? s)%Z scores,
        count (fun s => (60 <=? s) && (s <? 80))%Z scores,
        count (fun s => s <? 60)%Z scores).

End ContractAIWeb.

(** ** Concrete runs *)

Module Runs.
Import Py Re Exn ContractParser Value WorkingContractAI.

(** A reader that yields the given paragraph texts for every path. *)
Definition reader (paragraphs : list str) : str -> result (list str) :=
  fun _ => Ok paragraphs.

(** A capability that raises on every call. *)
Definition failing_advisor : str -> str -> list risk -> result dict :=
  fun _ _ _ => Raise (Exception (utf8 "connection refused")).

Definition contract_path : str := utf8 "contract.docx".

(** The contract of the end-to-end example. *)
Definition two_articles : list str :=
  [utf8 "第一条 付款"; utf8 "甲方应支付违约金10%";
   utf8 "第二条 验收"; utf8 "按照行业通用标准验收"].

Definition two_articles_documents : list document :=
  content_from contract_path 0 two_articles.

(** A contract of one paragraph with one keyword. *)
Definition one_keyword : list str := [utf8 "付款"].

Definition one_keyword_documents : list document :=
  content_from contract_path 0 one_keyword.

(** The clause scores of a run, in clause order. *)
Definition clause_scores (run : result report) : result (list Z) :=
  r ← run; risk_scores (clauses_analysis r).

(** A reply of the model that carries, besides the six fields asked for, a
    key of its own: the JSON text
    [{"risk_analysis": "ok", "specific_risks": [], "modification_suggestions": [],
      "legal_basis": "ok", "negotiation_tips": "ok", "risk_level": "低风险",
      "risk_score": 100}]. *)
Definition quoted (s : string) : str := [34%N] ++ utf8 s ++ [34%N].

Definition overriding_reply : str :=
  utf8 "{" ++ quoted "risk_analysis" ++ utf8 ": " ++ quoted "ok" ++ utf8 ", " ++
  quoted "specific_risks" ++ utf8 ": [], " ++
  quoted "modification_suggestions" ++ utf8 ": [], " ++
  quoted "legal_basis" ++ utf8 ": " ++ quoted "ok" ++ utf8 ", " ++
  quoted "negotiation_tips" ++ utf8 ": " ++ quoted "ok" ++ utf8 ", " ++
  quoted "risk_level" ++ utf8 ": " ++ quoted "低风险" ++ utf8 ", " ++
  quoted "risk_score" ++ utf8 ": 100}".

(** The dict [json.loads] builds from that text. *)
Definition overriding_object : dict :=
  <[utf8 "risk_score" := VInt 100]>
  (FixedLangChainContractAdvisor.fields (utf8 "ok") [] [] (utf8 "ok") (utf8 "ok")
     (utf8 "低风险")).

Definition str_eqb (a b : str) : bool := bool_decide (a = b).

(** The library calls as they answer on that text: the model replies with
    it; the search for a braced span finds the whole text; no substitution
    of [_clean_json_string] applies to it; [json.loads] parses it. On
    another text these stand-ins say nothing of the libraries. *)
Definition reply_chain : FixedLangChainContractAdvisor.prompt -> result str :=
  fun _ => Ok overriding_reply.

Definition reply_search : str -> str -> option str :=
  fun _ s => if str_eqb s overriding_reply then Some s else None.

Definition reply_sub : str -> str -> str -> str :=
  fun _ _ s => s.

Definition reply_loads : str -> result dict :=
  fun s => if str_eqb s overriding_reply then Ok overriding_object
           else Raise (Exception (utf8 "JSONDecodeError")).

Definition reply_advisor : str -> str -> list risk -> result dict :=
  fixed_advisor reply_chain reply_search reply_sub reply_loads remove_dups.

(** A model that cannot be reached: [chain.invoke] raises. *)
Definition unreachable_chain : FixedLangChainContractAdvisor.prompt -> result str :=
  fun _ => Raise (Exception (utf8 "connection refused")).

Definition offline_advisor : str -> str -> list risk -> result dict :=
  fixed_advisor unreachable_chain reply_search reply_sub reply_loads remove_dups.

(** The first clause of the example contract. *)
Definition payment_clause : clause :=
  make_clause
    {| source := contract_path; paragraph_id := 2; type := utf8 "paragraph" |}
    (utf8 "第一条 付款")
    [utf8 "第一条 付款"; utf8 "甲方应支付违约金10%"] [].

End Runs.

(** ** The keyword screen of the parser ([ContractParser.analyze_risks]) *)

Module KeywordScreen.
Import Py Exn ContractParser Value WorkingContractAI.

(** [risk_keywords], in the order the dict iterates. *)
Definition risk_keywords : list (str * list str) :=
  [ (utf8 "财务风险",
     [utf8 "支付"; utf8 "付款"; utf8 "违约金"; utf8 "价格"; utf8 "金额"; utf8 "赔偿";
      utf8 "利息"]);
    (utf8 "交付风险",
     [utf8 "交付"; utf8 "验收"; utf8 "标准"; utf8 "时间"; utf8 "期限"; utf8 "延迟";
      utf8 "尽快"]);
    (utf8 "法律风险",
     [utf8 "争议"; utf8 "诉讼"; utf8 "管辖"; utf8 "知识产权"; utf8 "保密"; utf8 "责任"]);
    (utf8 "模糊条款",
     [utf8 "适当"; utf8 "合理"; utf8 "相关"; utf8 "通用标准"; utf8 "协商解决";
      utf8 "行业标准"]);
    (utf8 "不平等条款",
     [utf8 "单方"; utf8 "甲方所在地"; utf8 "乙方承担全部责任"]) ].

(** The inner loop: the types with a keyword in the content. *)
Definition risks_found (content : str) : list str :=
  flat_map (fun entry : str * list str =>
              if any_in (snd entry) content then [fst entry] else [])
    risk_keywords.

Definition risk_level_of (risks_found : list str) : str :=
  if (3 <=? length risks_found)%nat then utf8 "高风险"
  else if (1 <=? length risks_found)%nat then utf8 "中风险"
  else utf8 "低风险".

(** [{**clause, 'risks': risks_found, 'risk_level': risk_level}] for every
    clause. *)
Definition analyze_risks (clauses : list clause) : list dict :=
  map (fun clause =>
         let content := clause_content clause in
         let risks_found := risks_found content in
         merge (clause_items clause)
           (<[utf8 "risks" := VList (map VStr risks_found)]>
            (<[utf8 "risk_level" := VStr (risk_level_of risks_found)]> ∅)))
    clauses.

End KeywordScreen.

(** ** The clause view of the dashboard ([web_interface.py]) *)

Module ContractAIWebApp.
Import Py Exn Value.

(** [d.get(k, default)] *)
Definition get (d : dict) (k : str) (default : value) : value :=
  match d !! k with
  | Some v => v
  | None => default
  end.

(** The icon of [display_clause_analysis]: the tier under [risk_level] (the
    low tier when the key is absent) looked up in the dict of three icons,
    with the white circle for any other key. A list or a dict is not
    hashable and cannot be looked up. *)
Definition risk_color (clause : dict) : result str :=
  match get clause (utf8 "risk_level") (VStr (utf8 "低风险")) with
  | VStr tier =>
      Ok (if bool_decide (tier = utf8 "高风险") then utf8 "🔴"
          else if bool_decide (tier = utf8 "中风险") then utf8 "🟡"
          else if bool_decide (tier = utf8 "低风险") then utf8 "🟢"
          else utf8 "⚪")
  | VNone | VBool _ | VInt _ => Ok (utf8 "⚪")
  | VList _ | VDict _ | VRisks _ | VMeta _ => Raise TypeError
  end.

End ContractAIWebApp.

(** ** ContractAISystem ([ContractAISystem.py]) *)

Module ContractAISystem.
Import Py Exn ContractParser Value WorkingContractAI.

(** [os.path.basename] of a POSIX path: what follows the last slash. *)
Definition basename (path : str) : str := List.last (split 47%N path) [].

(** The report dict once [analyze_contract_file] has added its two keys. *)
Record file_report := {
  analysis : report;
  analysis_timestamp : str;
  file_name : str
}.

(** What [analyze_contract_file] returns: the report, or the error dict of
    [analyze_contract] as it is. *)
Inductive file_outcome :=
| Analysed (r : file_report)
| Failed (e : exn).

(** A row of [comparison_data]. *)
Record comparison_row := {
  row_file_name : str;
  row_risk_score : Z;
  row_risk_level : str;
  row_high_risk_clauses : nat;
  row_total_risks : Z
}.

(** The names an instance answers to: the attributes [__init__] assigns
    and the methods of the class. *)
Definition attributes : list str :=
  [utf8 "ai"; utf8 "analysis_history"; utf8 "__init__"; utf8 "analyze_contract_file";
   utf8 "_save_analysis_report"; utf8 "_generate_text_report";
   utf8 "get_analysis_history"; utf8 "generate_comparison_report"].

Inductive attribute_error := AttributeError (name : str).

(** [self.<name>]: the lookup fails for a name the instance does not have. *)
Definition getattr (name : str) : attribute_error + unit :=
  if existsb (fun a => bool_decide (a = name)) attributes then inr tt
  else inl (AttributeError name).

(** The test of [_generate_text_report] (and of the demo) for a clause
    analysed by the model:
    ['risk_analysis' in c and len(c['risk_analysis']) > 50]. *)
Definition is_llm_clause (c : dict) : result bool :=
  match c !! utf8 "risk_analysis" with
  | None => Ok false
  | Some v => n ← len v; mret (50 <? n)%Z
  end.

(** [llm_clauses]: the clauses of the report that pass the test. *)
Fixpoint llm_clauses (clauses_analysis : list dict) : result (list dict) :=
  match clauses_analysis with
  | [] => Ok []
  | c :: rest =>
      b ← is_llm_clause c;
      k ← llm_clauses rest;
      mret (if b : bool then c :: k else k)
  end.

Section system.
(** The model and the reader behind [self.ai]. *)
Variable llm_advisor : str -> str -> list risk -> result dict.
Variable docx_paragraphs : str -> result (list str).
(** What is outside the program: the clock and the [reports] directory.
    [datetime.now().isoformat()] reads it; [_save_analysis_report] writes the
    two report files into it and swallows every exception. *)
Variable world : Type.
Variable now : world -> str * world.
Variable _save_analysis_report : file_report -> world -> world.

Record system := {
  analysis_history : list file_report;
  outside : world
}.

(** [self.ai] is built with [use_llm=True], and [analyze_contract] is called
    with its default policy. *)
Definition analyze_contract_file (file_path : str) (save_report : bool) (st : system)
    : file_outcome * system :=
  match analyze_contract true llm_advisor docx_paragraphs file_path true with
  | Error e => (Failed e, st)
  | Report report =>
      let (timestamp, w) := now (outside st) in
      let report := {| analysis := report;
                       analysis_timestamp := timestamp;
                       file_name := basename file_path |} in
      (Analysed report,
       {| analysis_history := analysis_history st ++ [report];
          outside := if save_report then _save_analysis_report report w else w |})
  end.

Definition get_analysis_history (st : system) : list file_report :=
  analysis_history st.

(** The loop of [generate_comparison_report]. *)
Definition compare_step (acc : list comparison_row * system) (file_path : str)
    : list comparison_row * system :=
  let (comparison_data, st) := acc in
  match analyze_contract_file file_path false st with
  | (Analysed report, st') =>
      (comparison_data ++
       [{| row_file_name := file_name report;
           row_risk_score := overall_risk_score (analysis report);
           row_risk_level := risk_level (analysis report);
           row_high_risk_clauses := high_risk_clauses (analysis report);
           row_total_risks := total_risks_found (analysis report) |}],
       st')
  | (Failed _, st') => (comparison_data, st')
  end.

(** After the loop the method calls [self._generate_comparison_text]. *)
Definition generate_comparison_report (file_paths : list str) (st : system)
    : (attribute_error + unit) * system :=
  let (comparison_data, st') := fold_left compare_step file_paths ([], st) in
  (getattr (utf8 "_generate_comparison_text"), st').
End system.

End ContractAISystem.

(** ** Further concrete inputs *)

Module Examples.
Import Py Exn ContractParser Value WorkingContractAI.

(** The one clause of a contract whose only paragraph is 付款: a preamble
    clause with one keyword. *)
Definition keyword_clause : clause :=
  make_clause
    {| source := Runs.contract_path; paragraph_id := 0; type := utf8 "paragraph" |}
    (utf8 "合同前言") [utf8 "付款"] [].

End Examples.

(** * Properties *)

Import Py Re Exn ContractParser Value WorkingContractAI.
Local Open Scope Z_scope.

(** ** The scorer *)

Lemma count_level_nonneg l risks : 0 <= count_level l risks.
Proof. unfold count_level. lia. Qed.

Lemma count_level_app l xs ys :
  count_level l (xs ++ ys) = count_level l xs + count_level l ys.
Proof.
  unfold count_level. rewrite List.filter_app, length_app. lia.
Qed.

Lemma count_level_cons l r risks :
  count_level l (r :: risks) =
  (if severity_eqb (level r) l then 1 else 0) + count_level l risks.
Proof.
  unfold count_level. simpl. destruct (severity_eqb (level r) l); simpl; lia.
Qed.

(** A finding is medium or high, so a non-empty list costs at least ten. *)
Lemma reduction_positive r risks :
  10 <= count_level high (r :: risks) * 20 + count_level medium (r :: risks) * 10.
Proof.
  rewrite !count_level_cons.
  pose proof (count_level_nonneg high risks).
  pose proof (count_level_nonneg medium risks).
  destruct (level r); simpl; lia.
Qed.

(** Whatever the list, the score is the clamped formula: on the empty list
    both counts are zero. *)
Lemma score_formula risks :
  _calculate_risk_score risks =
  Z.max 30 (85 - (count_level high risks * 20 + count_level medium risks * 10)).
Proof. destruct risks; reflexivity. Qed.

(** C7: the score of every list of findings lies in [30,100], and a list
    with one more high-severity finding, wherever it is added, never scores
    higher. *)
Theorem score_range_and_monotone :
  (forall risks, 30 <= _calculate_risk_score risks <= 100) /\
  (forall before after r, level r = high ->
     _calculate_risk_score (before ++ r :: after) <=
     _calculate_risk_score (before ++ after)).
Proof.
  split.
  - intros risks. rewrite score_formula.
    pose proof (count_level_nonneg high risks).
    pose proof (count_level_nonneg medium risks). lia.
  - intros before after r Hr. rewrite !score_formula.
    rewrite !count_level_app, !count_level_cons, Hr. simpl.
    lia.
Qed.

Lemma score_range_and_monotone_witness :
  _calculate_risk_score
    ([] ++ {| risk_type := utf8 "财务风险"; level := high;
              description := utf8 "违约金比例需确认";
              position := utf8 "条款内容"; category := utf8 "financial_risk" |} :: [])
  <= _calculate_risk_score ([] ++ []).
Proof.
  apply (proj2 score_range_and_monotone). reflexivity.
Defined.

(** C9: the score is at most 85 and is 85 exactly for the empty list; a
    clause with a finding scores at most 75 and its tier is not the low one. *)
Theorem score_at_most_85 :
  forall risks,
    _calculate_risk_score risks <= 85 /\
    (_calculate_risk_score risks = 85 <-> risks = []) /\
    (risks <> [] ->
       _calculate_risk_score risks <= 75 /\
       _get_risk_level (_calculate_risk_score risks) <> utf8 "低风险").
Proof.
  intros risks.
  assert (Hne : risks <> [] -> 30 <= _calculate_risk_score risks <= 75).
  { destruct risks as [|r rest]; [congruence|]. intros _.
    rewrite score_formula. pose proof (reduction_positive r rest). lia. }
  split; [|split].
  - destruct risks as [|r rest]; [reflexivity|].
    assert (H : r :: rest <> []) by congruence. specialize (Hne H). lia.
  - split.
    + intros E. destruct risks as [|r rest]; [reflexivity|].
      assert (H : r :: rest <> []) by congruence. specialize (Hne H). lia.
    + intros ->. reflexivity.
  - intros H. specialize (Hne H). split; [lia|].
    unfold _get_risk_level.
    destruct (80 <=? _calculate_risk_score risks) eqn:E80; [lia|].
    destruct (60 <=? _calculate_risk_score risks); vm_compute; discriminate.
Qed.

Lemma score_at_most_85_witness :
  _calculate_risk_score (_detect_detailed_risks (utf8 "付款")) <= 75 /\
  _get_risk_level (_calculate_risk_score (_detect_detailed_risks (utf8 "付款")))
  <> utf8 "低风险".
Proof.
  apply (proj2 (proj2 (score_at_most_85 (_detect_detailed_risks (utf8 "付款"))))).
  vm_compute. discriminate.
Defined.

(** ** The pipeline without enrichment *)

Import Runs.

(** With [use_llm] off the capability is not called. *)
Lemma analyze_clause_never advisor b c :
  analyze_clause false advisor b c =
  merge (clause_items c) (basic_items (_basic_risk_analysis c)).
Proof. reflexivity. Qed.

Lemma analyze_documents_never advisor b advisor' b' docs :
  analyze_documents false advisor docs b = analyze_documents false advisor' docs b'.
Proof.
  unfold analyze_documents.
  rewrite (map_ext (analyze_clause false advisor b) (analyze_clause false advisor' b'));
    [reflexivity|].
  intros c. rewrite !analyze_clause_never. reflexivity.
Qed.

(** C10: with no paragraph to read, the segmenter emits no clause; the
    preamble title alone never makes one. *)
Theorem split_into_clauses_empty : split_into_clauses [] = [].
Proof. reflexivity. Qed.

(** C1 as the spec words it (clause scores 55 and 45, overall score 50) does
    not hold of the run on its example contract. *)
Lemma end_to_end_example_not_55_45 :
  ~ (total_clauses <$> analyze_documents false failing_advisor two_articles_documents true
       = Ok 2%nat /\
     clause_scores (analyze_documents false failing_advisor two_articles_documents true)
       = Ok [55; 45] /\
     overall_risk_score <$> analyze_documents false failing_advisor two_articles_documents true
       = Ok 50 /\
     risk_level <$> analyze_documents false failing_advisor two_articles_documents true
       = Ok (utf8 "高风险") /\
     high_risk_clauses <$> analyze_documents false failing_advisor two_articles_documents true
       = Ok 2%nat).
Proof.
  intros (_ & Hscores & _). vm_compute in Hscores. discriminate Hscores.
Qed.

(** C1, amended: on the example contract the pipeline (segment, detect and
    score each clause, aggregate) yields two clauses scoring 35 and 30, an
    overall score of 32, the high tier, and two high-risk clauses. Clause 1
    holds three keywords (支付, 付款, 违约金) and one pattern; clause 2 holds
    two keywords and two patterns, and its score is clamped at 30. *)
Theorem end_to_end_example :
  forall advisor use_llm_for_high_risk,
    map clause_content (split_into_clauses two_articles_documents) =
      [utf8 "第一条 付款" ++ [newline] ++ utf8 "甲方应支付违约金10%";
       utf8 "第二条 验收" ++ [newline] ++ utf8 "按照行业通用标准验收"] /\
    total_clauses <$>
      analyze_documents false advisor two_articles_documents use_llm_for_high_risk
      = Ok 2%nat /\
    clause_scores
      (analyze_documents false advisor two_articles_documents use_llm_for_high_risk)
      = Ok [35; 30] /\
    overall_risk_score <$>
      analyze_documents false advisor two_articles_documents use_llm_for_high_risk
      = Ok 32 /\
    risk_level <$>
      analyze_documents false advisor two_articles_documents use_llm_for_high_risk
      = Ok (utf8 "高风险") /\
    high_risk_clauses <$>
      analyze_documents false advisor two_articles_documents use_llm_for_high_risk
      = Ok 2%nat.
Proof.
  intros advisor b.
  rewrite (analyze_documents_never advisor b failing_advisor true).
  repeat split; vm_compute; reflexivity.
Qed.

(** C2: the report of a contract whose one clause scores 75 counts no
    medium-risk clause, although 60 <= 75 < 80: the tier of 75 is the
    medium one, and the dashboard counts the clause as medium. *)
Theorem medium_count_misses_75 :
  clause_scores (analyze_documents false failing_advisor one_keyword_documents true)
    = Ok [75] /\
  medium_risk_clauses <$> analyze_documents false failing_advisor one_keyword_documents true
    = Ok 0%nat /\
  count (fun s => (60 <=? s) && (s <? 80)) [75] = 1%nat /\
  _get_risk_level 75 = utf8 "中风险" /\
  (analyze_documents false failing_advisor one_keyword_documents true
     ≫= ContractAIWeb.display_risk_chart) = Ok (0, 1, 0)%nat.
Proof. repeat split; vm_compute; reflexivity. Qed.

(** C3: in the report of that contract the high and medium counts and the
    count of scores of 80 and more add up to 0, not to its one clause: a
    score of 75 to 79 falls in no bucket. *)
Theorem buckets_miss_75 :
  (r ← analyze_documents false failing_advisor one_keyword_documents true;
   scores ← risk_scores (clauses_analysis r);
   mret ((high_risk_clauses r + medium_risk_clauses r +
          count (fun s => (80 <=? s)%Z) scores)%nat,
         length (clauses_analysis r)))
  = Ok (0, 1)%nat.
Proof. vm_compute. reflexivity. Qed.

(** C4: on an empty list of analyses the aggregator fails in its average
    (the division by the clause count: the error the spec calls
    EmptyDocumentError), and [analyze_contract] on a file that yields no
    clause returns that error in place of a report. *)
Theorem empty_document_is_fatal :
  forall use_llm advisor docx_paragraphs file_path use_llm_for_high_risk documents,
    load_contract docx_paragraphs file_path = Ok documents ->
    split_into_clauses documents = [] ->
    _generate_report use_llm [] = Raise ZeroDivisionError /\
    analyze_contract use_llm advisor docx_paragraphs file_path use_llm_for_high_risk
      = Error ZeroDivisionError.
Proof.
  intros use_llm advisor rd path b documents Hload Hsplit.
  split; [reflexivity|].
  unfold analyze_contract. rewrite Hload. simpl.
  unfold analyze_documents. rewrite Hsplit. reflexivity.
Qed.

Lemma empty_document_is_fatal_witness :
  _generate_report true [] = Raise ZeroDivisionError /\
  analyze_contract true failing_advisor (reader []) contract_path true
    = Error ZeroDivisionError.
Proof.
  apply (empty_document_is_fatal true failing_advisor (reader []) contract_path true []);
    reflexivity.
Defined.

(** ** The segmenter *)

Section segmenter.

(** Every piece on a line of its own: each is preceded by a newline. *)
Local Abbreviation lines := (@flat_map str N (cons newline)).

(** The text held by a state: the emitted bodies, then both accumulators. *)
Local Abbreviation pieces st :=
  (map clause_content (clauses st) ++ current_main_clause st ++ current_sub_clauses st).

Lemma join_lines (parts : list str) : join [newline] parts = tl (lines parts).
Proof.
  induction parts as [|x rest IH]; [reflexivity|].
  destruct rest as [|y rest'].
  - simpl. now rewrite app_nil_r.
  - change (join [newline] (x :: y :: rest'))
      with (x ++ [newline] ++ join [newline] (y :: rest')).
    rewrite IH. reflexivity.
Qed.

Lemma lines_join (parts : list str) :
  parts <> [] -> newline :: join [newline] parts = lines parts.
Proof.
  intros Hne. rewrite join_lines. destruct parts; [congruence|reflexivity].
Qed.

Lemma lines_body (parts : list str) :
  parts <> [] -> lines [join [newline] parts] = lines parts.
Proof.
  intros Hne. simpl. rewrite app_nil_r. now apply lines_join.
Qed.

Lemma truthy_nonempty {A} (l : list A) : truthy l = true <-> l <> [].
Proof. destruct l; simpl; split; congruence. Qed.

Lemma truthy_empty {A} (l : list A) : truthy l = false <-> l = [].
Proof. destruct l; simpl; split; congruence. Qed.

Lemma accumulated_nonempty {A} (main subs : list A) :
  truthy main || truthy subs = true -> main ++ subs <> [].
Proof. destruct main, subs; simpl; congruence. Qed.

Lemma lines_append_to_last (subs : list str) (text : str) :
  subs <> [] -> lines (append_to_last subs text) = lines (subs ++ [text]).
Proof.
  induction subs as [|s rest IH]; [congruence|]. intros _.
  destruct rest as [|s' rest'].
  - simpl. rewrite !app_nil_r. reflexivity.
  - change (append_to_last (s :: s' :: rest') text)
      with (s :: append_to_last (s' :: rest') text).
    simpl in *. rewrite IH by congruence. reflexivity.
Qed.

Ltac flatten :=
  rewrite ?flat_map_app; simpl; rewrite ?app_nil_r, <- ?app_assoc; simpl.

(** One iteration adds the paragraph's text, on a line of its own, to the
    text the state holds. *)
Lemma step_lines st doc :
  lines (pieces (step st doc)) = lines (pieces st) ++ newline :: page_content doc.
Proof.
  unfold step.
  destruct (_is_main_clause (page_content doc)).
  - cbn [clauses current_main_clause current_sub_clauses].
    destruct (truthy (current_main_clause st) || truthy (current_sub_clauses st)) eqn:Hacc.
    + apply accumulated_nonempty in Hacc.
      rewrite map_app. cbn [map make_clause clause_content].
      unfold _combine_clause_content.
      rewrite !flat_map_app, (lines_body _ Hacc). flatten. reflexivity.
    + apply orb_false_iff in Hacc as [Hm Hs].
      apply truthy_empty in Hm, Hs. rewrite Hm, Hs. flatten. reflexivity.
  - destruct (_is_sub_clause (page_content doc)).
    + cbn [clauses current_main_clause current_sub_clauses]. flatten. reflexivity.
    + destruct (truthy (current_sub_clauses st)) eqn:Hs;
        cbn [clauses current_main_clause current_sub_clauses].
      * apply truthy_nonempty in Hs.
        rewrite !flat_map_app, (lines_append_to_last _ _ Hs). flatten. reflexivity.
      * apply truthy_empty in Hs. rewrite Hs. flatten. reflexivity.
Qed.

Lemma fold_lines docs st :
  lines (pieces (fold_left step docs st)) =
  lines (pieces st) ++ lines (map page_content docs).
Proof.
  revert st. induction docs as [|doc rest IH]; intros st.
  - simpl. now rewrite app_nil_r.
  - simpl fold_left. rewrite IH, step_lines. simpl. now rewrite <- app_assoc.
Qed.

(** After an iteration an accumulator is non-empty and [metadata] is bound. *)
Lemma step_accumulates st doc :
  last_metadata (step st doc) = Some (doc_metadata doc) /\
  truthy (current_main_clause (step st doc)) || truthy (current_sub_clauses (step st doc))
    = true.
Proof.
  unfold step.
  destruct (_is_main_clause (page_content doc)); [split; reflexivity|].
  destruct (_is_sub_clause (page_content doc)).
  - split; [reflexivity|]. cbn [current_main_clause current_sub_clauses].
    destruct (current_sub_clauses st); simpl; apply orb_true_r.
  - destruct (truthy (current_sub_clauses st)) eqn:Hs;
      (split; [reflexivity|]); cbn [current_main_clause current_sub_clauses].
    + destruct (current_sub_clauses st) as [|s [|s' rest]]; simpl in *;
        try discriminate; apply orb_true_r.
    + destruct (current_main_clause st); reflexivity.
Qed.

Lemma fold_accumulates docs st :
  docs <> [] ->
  exists md,
    last_metadata (fold_left step docs st) = Some md /\
    truthy (current_main_clause (fold_left step docs st))
    || truthy (current_sub_clauses (fold_left step docs st)) = true.
Proof.
  intros Hne. destruct (exists_last Hne) as (front & doc & ->).
  rewrite fold_left_app. simpl.
  exists (doc_metadata doc). apply step_accumulates.
Qed.

(** The flush after the loop never reads an unbound [metadata]. *)
Lemma finish_metadata_bound docs :
  truthy (current_main_clause (fold_left step docs initial))
  || truthy (current_sub_clauses (fold_left step docs initial)) = true ->
  last_metadata (fold_left step docs initial) <> None.
Proof.
  destruct docs as [|doc rest]; [discriminate|]. intros _.
  destruct (fold_accumulates (doc :: rest) initial) as (md & -> & _); congruence.
Qed.

Lemma split_into_clauses_nonempty documents :
  documents <> [] -> split_into_clauses documents <> [].
Proof.
  intros Hne.
  destruct (fold_accumulates documents initial Hne) as (md & Hmd & Hacc).
  unfold split_into_clauses, finish. rewrite Hacc, Hmd.
  destruct (clauses (fold_left step documents initial)); discriminate.
Qed.

(** C6: from a non-empty sequence of paragraphs the segmenter emits at least
    one clause, and the bodies of the clauses joined by newlines are the
    paragraph texts joined by newlines: every text once, in order, nothing
    else but the joining newlines. *)
Theorem segmentation_keeps_text :
  forall documents,
    documents <> [] ->
    (1 <= length (split_into_clauses documents))%nat /\
    join [newline] (map clause_content (split_into_clauses documents)) =
    join [newline] (map page_content documents).
Proof.
  intros documents Hne.
  destruct (fold_accumulates documents initial Hne) as (md & Hmd & Hacc).
  pose proof (fold_lines documents initial) as Hlines.
  unfold split_into_clauses, finish. rewrite Hacc, Hmd.
  set (st := fold_left step documents initial) in *.
  assert (Hg := accumulated_nonempty _ _ Hacc).
  split.
  - rewrite length_app. simpl. lia.
  - rewrite !join_lines. f_equal.
    rewrite map_app. cbn [map make_clause clause_content].
    unfold _combine_clause_content.
    rewrite flat_map_app, (lines_body _ Hg), <- flat_map_app.
    rewrite Hlines. reflexivity.
Qed.

Lemma segmentation_keeps_text_witness :
  (1 <= length (split_into_clauses two_articles_documents))%nat /\
  join [newline] (map clause_content (split_into_clauses two_articles_documents)) =
  join [newline] (map page_content two_articles_documents).
Proof.
  apply (segmentation_keeps_text two_articles_documents).
  vm_compute. discriminate.
Defined.

End segmenter.

(** ** Enrichment *)

Section enrichment.

Import FixedLangChainContractAdvisor.

(** The keys of a clause's analysis before any enrichment. *)
Lemma bare_analysis_lookup (c : clause) (b : basic_analysis) :
  merge (clause_items c) (basic_items b) !! utf8 "risks" = Some (VRisks (risks b)) /\
  merge (clause_items c) (basic_items b) !! utf8 "risk_score" = Some (VInt (risk_score b)) /\
  Forall (fun field => merge (clause_items c) (basic_items b) !! field = None)
    required_fields.
Proof.
  split; [|split].
  - vm_compute. reflexivity.
  - vm_compute. reflexivity.
  - repeat constructor; vm_compute; reflexivity.
Qed.

(** [{**basic, **llm}]: a key of the reply shadows the same key of the
    deterministic analysis, and the clause's own keys do not restore it. *)
Lemma merged_reply_shadows (c : clause) (b : basic_analysis) (llm : dict) (key : str)
    (v : value) :
  llm !! key = Some v ->
  merge (clause_items c) (merge (basic_items b) llm) !! key = Some v.
Proof.
  intros Hkey. unfold merge.
  apply lookup_union_Some_l, lookup_union_Some_l, Hkey.
Qed.

(** A key the reply does not hold keeps the value of the deterministic
    analysis. *)
Lemma merged_reply_keeps (c : clause) (b : basic_analysis) (llm : dict) (key : str) :
  llm !! key = None ->
  merge (clause_items c) (merge (basic_items b) llm) !! key =
  merge (clause_items c) (basic_items b) !! key.
Proof.
  intros Hkey. unfold merge.
  rewrite !lookup_union, Hkey.
  destruct (basic_items b !! key); reflexivity.
Qed.

(** [_parse_llm_response] hands back the parsed object as it is, with
    whatever keys it has, once the six required ones are among them. *)
Lemma parse_returns_object re_search_group re_sub json_loads response json_str result :
  re_search_group (utf8 "\{[^{}]*\{.*\}[^{}]*\}|\{.*\}") (strip response) = Some json_str ->
  json_loads (_clean_json_string re_sub json_str) = Ok result ->
  forallb (has_key result) required_fields = true ->
  _parse_llm_response re_search_group re_sub json_loads response = result.
Proof.
  intros Hsearch Hloads Hfields. unfold _parse_llm_response.
  rewrite Hsearch, Hloads, Hfields. reflexivity.
Qed.


(** What [_extract_from_text] and [_fallback_analysis] return holds the six
    fields and neither [risks] nor [risk_score]. *)
Lemma fields_keys (ra : str) (sr ms : list str) (lb nt rl : str) :
  Forall (fun field => is_Some (fields ra sr ms lb nt rl !! field)) required_fields /\
  fields ra sr ms lb nt rl !! utf8 "risks" = None /\
  fields ra sr ms lb nt rl !! utf8 "risk_score" = None.
Proof.
  split; [|split].
  - repeat constructor; vm_compute; eexists; reflexivity.
  - vm_compute. reflexivity.
  - vm_compute. reflexivity.
Qed.

(** The advisor of the class does not raise when the model cannot be
    reached: it returns its fallback fields, which are then merged. They
    leave the findings and the score alone. *)
Lemma offline_model_falls_back chain re_search_group re_sub json_loads list_set
    (c : clause) :
  (forall p, exists e, chain p = Raise e) ->
  Forall (fun field =>
            is_Some (analyze_clause true
                       (fixed_advisor chain re_search_group re_sub json_loads list_set)
                       false c !! field)) required_fields /\
  analyze_clause true (fixed_advisor chain re_search_group re_sub json_loads list_set)
    false c !! utf8 "risks"
    = Some (VRisks (_detect_detailed_risks (clause_content c))) /\
  analyze_clause true (fixed_advisor chain re_search_group re_sub json_loads list_set)
    false c !! utf8 "risk_score"
    = Some (VInt (_calculate_risk_score (_detect_detailed_risks (clause_content c)))).
Proof.
  intros Hfails.
  unfold analyze_clause, fixed_advisor, analyze_clause_with_llm. cbn [andb negb orb].
  destruct (Hfails (_build_complete_prompt (clause_content c) (clause_title (clause_meta c))
                      (risks (_basic_risk_analysis c)))) as [e ->].
  unfold _fallback_analysis.
  match goal with
  | |- context [fields ?ra ?sr ?ms ?lb ?nt ?rl] =>
      destruct (fields_keys ra sr ms lb nt rl) as (Hfields & Hrisks & Hscore);
      set (llm := fields ra sr ms lb nt rl) in *
  end.
  destruct (bare_analysis_lookup c (_basic_risk_analysis c)) as (Hr & Hs & _).
  split; [|split].
  - eapply Forall_impl; [exact Hfields|].
    intros field [v Hv]. exists v. now apply merged_reply_shadows.
  - rewrite (merged_reply_keeps _ _ _ _ Hrisks). exact Hr.
  - rewrite (merged_reply_keeps _ _ _ _ Hscore). exact Hs.
Qed.




(** C8: a reply of the model that carries a key [risk_score] replaces the
    score of the scorer in the clause's analysis: the clause scored 35 is
    reported with 100, and so is the whole contract. *)
Theorem reply_overrides_score :
  risk_score (_basic_risk_analysis payment_clause) = 35 /\
  analyze_clause true reply_advisor true payment_clause !! utf8 "risk_score"
    = Some (VInt 100) /\
  clause_scores (analyze_documents true reply_advisor two_articles_documents true)
    = Ok [100; 100] /\
  WorkingContractAI.risk_level <$> analyze_documents true reply_advisor two_articles_documents true
    = Ok (utf8 "低风险").
Proof. repeat split; vm_compute; reflexivity. Qed.

End enrichment.

(** ** The aggregator in general *)

Section aggregator.

(** What [_generate_report] computes on analyses that hold an integer
    score and a sized [risks]: it returns, and these are its figures. The
    medium bucket ends at 75. *)
Lemma generate_report_figures (use_llm : bool) (analysis : list dict)
    (counts scores : list Z) :
  risk_counts analysis = Ok counts ->
  risk_scores analysis = Ok scores ->
  analysis <> [] ->
  exists r,
    _generate_report use_llm analysis = Ok r /\
    overall_risk_score r = sum scores / Z.of_nat (length analysis) /\
    WorkingContractAI.risk_level r =
      _get_risk_level (sum scores / Z.of_nat (length analysis)) /\
    total_clauses r = length analysis /\
    total_risks_found r = sum counts /\
    high_risk_clauses r = count (fun s => s <? 60) scores /\
    medium_risk_clauses r = count (fun s => (60 <=? s) && (s <? 75)) scores /\
    clauses_analysis r = analysis.
Proof.
  intros Hcounts Hscores Hne.
  unfold _generate_report, _generate_summary. rewrite Hcounts, Hscores.
  destruct analysis as [|a rest]; [congruence|].
  cbv [mbind result_bind mret result_ret]. cbn [length Nat.eqb].
  eexists. split; [reflexivity|]. repeat split.
Qed.

(** The four ranges of a score: the report counts the first two, the
    dashboard's low bucket is the last, and the scores from 75 to 79 are
    in none of the report's. *)
Lemma buckets_with_gap (scores : list Z) :
  (count (fun s => s <? 60)%Z scores +
   count (fun s => (60 <=? s) && (s <? 75))%Z scores +
   count (fun s => (75 <=? s) && (s <? 80))%Z scores +
   count (fun s => 80 <=? s)%Z scores)%nat = length scores.
Proof.
  unfold count. induction scores as [|s rest IH]; [reflexivity|].
  cbn [List.filter length].
  destruct (s <? 60) eqn:E1, (60 <=? s) eqn:E2, (s <? 75) eqn:E3,
           (75 <=? s) eqn:E4, (s <? 80) eqn:E5, (80 <=? s) eqn:E6;
    cbn [andb length]; lia.
Qed.

Lemma mapM_result_cons {A B} (f : A -> result B) (x : A) (l : list A) :
  mapM f (x :: l) = y ← f x; k ← mapM f l; mret (y :: k).
Proof. reflexivity. Qed.

(** The scores and the sizes the aggregator reads in the analyses made
    without enrichment are those of the scorer and the detector. *)
Lemma bare_analyses_readable (advisor : str -> str -> list risk -> result dict)
    (b : bool) (clauses : list clause) :
  risk_scores (map (analyze_clause false advisor b) clauses)
    = Ok (map (fun c => risk_score (_basic_risk_analysis c)) clauses) /\
  risk_counts (map (analyze_clause false advisor b) clauses)
    = Ok (map (fun c => Z.of_nat (length (risks (_basic_risk_analysis c)))) clauses).
Proof.
  unfold risk_scores, risk_counts.
  induction clauses as [|c rest [IHs IHc]]; [split; reflexivity|].
  cbn [map]. rewrite !mapM_result_cons, IHs, IHc, analyze_clause_never.
  destruct (bare_analysis_lookup c (_basic_risk_analysis c)) as (Hr & Hs & _).
  unfold getitem. rewrite Hr, Hs. split; reflexivity.
Qed.

(** Without enrichment the analysis of a non-empty document returns a
    report. *)
Lemma analyze_documents_returns (advisor : str -> str -> list risk -> result dict)
    (b : bool) (documents : list document) :
  documents <> [] ->
  exists r, analyze_documents false advisor documents b = Ok r /\
            (1 <= total_clauses r)%nat.
Proof.
  intros Hne. unfold analyze_documents.
  destruct (bare_analyses_readable advisor b (split_into_clauses documents))
    as (Hs & Hc).
  assert (Hclauses : map (analyze_clause false advisor b) (split_into_clauses documents)
                     <> []).
  { pose proof (split_into_clauses_nonempty documents Hne) as H.
    destruct (split_into_clauses documents); [congruence|discriminate]. }
  destruct (generate_report_figures false _ _ _ Hc Hs Hclauses)
    as (r & Hr & _ & _ & Hn & _).
  exists r. split; [exact Hr|]. rewrite Hn.
  destruct (map (analyze_clause false advisor b) (split_into_clauses documents));
    [congruence|simpl; lia].
Qed.

End aggregator.

(** ** The matcher decides the language of a pattern *)

Section matcher.

Lemma matches_cat_inv r1 r2 s :
  matches (Cat r1 r2) s ->
  exists s1 s2, s = s1 ++ s2 /\ matches r1 s1 /\ matches r2 s2.
Proof. intros H. inversion H; subst. eauto. Qed.

Lemma matches_alt_inv r1 r2 s :
  matches (Alt r1 r2) s -> matches r1 s \/ matches r2 s.
Proof. intros H. inversion H; subst; auto. Qed.

Lemma nullable_matches r : nullable r = true <-> matches r [].
Proof.
  induction r; simpl; split; intros H;
    try discriminate; try (now constructor); try (now inversion H).
  - apply andb_true_iff in H as [H1 H2].
    change (@nil N) with (@nil N ++ @nil N). constructor; tauto.
  - apply matches_cat_inv in H as (s1 & s2 & Happ & H1 & H2).
    symmetry in Happ. apply app_eq_nil in Happ as [-> ->].
    apply andb_true_iff. tauto.
  - apply orb_true_iff in H as [H|H]; [apply MAltL|apply MAltR]; tauto.
  - apply orb_true_iff. apply matches_alt_inv in H. tauto.
Qed.

Lemma of_bool_matches b s : matches (of_bool b) s <-> b = true /\ s = [].
Proof.
  destruct b; simpl; split.
  - intros H. now inversion H.
  - intros [_ ->]. constructor.
  - intros H. inversion H.
  - intros [H _]. discriminate.
Qed.

(** A non-empty match of a starred pattern starts with a non-empty match
    of the pattern. *)
Lemma star_cons r c s :
  matches (Star r) (c :: s) ->
  exists s1 s2, s = s1 ++ s2 /\ matches r (c :: s1) /\ matches (Star r) s2.
Proof.
  intros H. remember (Star r) as r' eqn:Er. remember (c :: s) as t eqn:Et.
  revert s Et.
  induction H as [| | | | | | | | |r0 s1 s2 H1 _ H2 IH2]; intros rest Et;
    try discriminate.
  injection Er as ->.
  destruct s1 as [|c1 s1'].
  - simpl in Et. now apply IH2.
  - simpl in Et. injection Et as -> <-. now exists s1', s2.
Qed.

Lemma deriv_matches r : forall c s, matches (deriv c r) s <-> matches r (c :: s).
Proof.
  induction r as [| |d| | |cs|r1 IH1 r2 IH2|r1 IH1 r2 IH2|r1 IH1]; intros c s; simpl.
  - split; intros H; inversion H.
  - split; intros H; inversion H.
  - rewrite of_bool_matches. split.
    + intros [Hc ->]. apply N.eqb_eq in Hc as ->. constructor.
    + intros H. inversion H; subst. split; [apply N.eqb_refl|reflexivity].
  - rewrite of_bool_matches. split.
    + intros [Hc ->]. constructor. apply negb_true_iff, N.eqb_neq in Hc. exact Hc.
    + intros H. inversion H; subst. split; [|reflexivity].
      now apply negb_true_iff, N.eqb_neq.
  - rewrite of_bool_matches. split.
    + intros [Hc ->]. now constructor.
    + intros H. inversion H; subst. now split.
  - rewrite of_bool_matches. split.
    + intros [Hc ->]. constructor.
      apply existsb_exists in Hc as (x & Hin & Hx). apply N.eqb_eq in Hx. now subst.
    + intros H. inversion H; subst. split; [|reflexivity].
      apply existsb_exists. exists c. split; [assumption|apply N.eqb_refl].
  - assert (Hcat : matches (Cat (deriv c r1) r2) s ->
                   matches (Cat r1 r2) (c :: s)).
    { intros H. apply matches_cat_inv in H as (s1 & s2 & -> & H1 & H2).
      apply IH1 in H1. change (c :: s1 ++ s2) with ((c :: s1) ++ s2).
      now constructor. }
    assert (Hback : matches (Cat r1 r2) (c :: s) ->
                    matches (Cat (deriv c r1) r2) s \/
                    (matches r1 [] /\ matches (deriv c r2) s)).
    { intros H. apply matches_cat_inv in H as (s1 & s2 & Happ & H1 & H2).
      destruct s1 as [|c1 s1'].
      - right. simpl in Happ. subst s2. split; [assumption|now apply IH2].
      - left. simpl in Happ. injection Happ as -> ->.
        constructor; [now apply IH1|assumption]. }
    destruct (nullable r1) eqn:Hn.
    + split.
      * intros H. apply matches_alt_inv in H as [H|H]; [now apply Hcat|].
        change (c :: s) with ([] ++ c :: s). constructor.
        -- now apply nullable_matches.
        -- now apply IH2.
      * intros H. destruct (Hback H) as [H'|[_ H']];
          [now apply MAltL|now apply MAltR].
    + split; [exact Hcat|].
      intros H. destruct (Hback H) as [H'|[H' _]]; [exact H'|].
      apply nullable_matches in H'. congruence.
  - split.
    + intros H. apply matches_alt_inv in H as [H|H];
        [apply MAltL; now apply IH1|apply MAltR; now apply IH2].
    + intros H. apply matches_alt_inv in H as [H|H];
        [apply MAltL; now apply IH1|apply MAltR; now apply IH2].
  - split.
    + intros H. apply matches_cat_inv in H as (s1 & s2 & -> & H1 & H2).
      apply IH1 in H1. change (c :: s1 ++ s2) with ((c :: s1) ++ s2).
      now constructor.
    + intros H. destruct (star_cons _ _ _ H) as (s1 & s2 & -> & H1 & H2).
      constructor; [now apply IH1|assumption].
Qed.

Lemma fullmatch_matches s : forall r, fullmatch r s = true <-> matches r s.
Proof.
  induction s as [|c s IH]; intros r; simpl.
  - apply nullable_matches.
  - rewrite IH. apply deriv_matches.
Qed.

(** [re.match] holds exactly when a prefix of the text is a match. *)
Lemma re_match_prefix s : forall r,
  re_match r s = true <-> exists p rest, s = p ++ rest /\ matches r p.
Proof.
  induction s as [|c s IH]; intros r; simpl.
  - rewrite orb_false_r, nullable_matches. split.
    + intros H. now exists [], [].
    + intros (p & rest & Hs & H). symmetry in Hs.
      apply app_eq_nil in Hs as [-> _]. exact H.
  - rewrite orb_true_iff, nullable_matches, IH. split.
    + intros [H|(p & rest & -> & H)].
      * now exists [], (c :: s).
      * exists (c :: p), rest. split; [reflexivity|now apply deriv_matches].
    + intros (p & rest & Hs & H). destruct p as [|c' p].
      * now left.
      * right. simpl in Hs. injection Hs as <- ->.
        exists p, rest. split; [reflexivity|now apply deriv_matches].
Qed.

(** [re.search] holds exactly when some part of the text is a match. *)
Lemma re_search_infix r s :
  re_search r s = true <->
  exists before found after, s = before ++ found ++ after /\ matches r found.
Proof.
  induction s as [|c s IH].
  - change (re_search r []) with (re_match r [] || false).
    rewrite orb_false_r, re_match_prefix. split.
    + intros (p & rest & Hs & H). symmetry in Hs.
      apply app_eq_nil in Hs as [-> ->]. now exists [], [], [].
    + intros (b & f & a & Hs & H). symmetry in Hs.
      apply app_eq_nil in Hs as [-> Hs]. apply app_eq_nil in Hs as [-> ->].
      now exists [], [].
  - change (re_search r (c :: s)) with (re_match r (c :: s) || re_search r s).
    rewrite orb_true_iff, re_match_prefix, IH. split.
    + intros [(p & rest & Hs & H)|(b & f & a & -> & H)].
      * exists [], p, rest. now split.
      * exists (c :: b), f, a. now split.
    + intros (b & f & a & Hs & H). destruct b as [|c' b].
      * left. now exists f, a.
      * right. simpl in Hs. injection Hs as <- ->. now exists b, f, a.
Qed.

End matcher.

(** ** The loader *)

Section loader.

Lemma lstrip_head (s : str) :
  match lstrip s with [] => True | c :: _ => isspace c = false end.
Proof.
  induction s as [|c s IH]; simpl; [exact I|].
  destruct (isspace c) eqn:E; [exact IH|exact E].
Qed.

Lemma lstrip_fixed (s : str) :
  match s with [] => True | c :: _ => isspace c = false end -> lstrip s = s.
Proof. destruct s as [|c s]; simpl; [reflexivity|]. now intros ->. Qed.

Lemma lstrip_lstrip (s : str) : lstrip (lstrip s) = lstrip s.
Proof. apply lstrip_fixed, lstrip_head. Qed.

(** [lstrip] removes a run of leading characters and nothing else. *)
Lemma lstrip_suffix (s : str) : exists sp, s = sp ++ lstrip s.
Proof.
  induction s as [|c s [sp IH]]; [now exists []|]. simpl.
  destruct (isspace c).
  - exists (c :: sp). simpl. now rewrite <- IH.
  - now exists [].
Qed.

Lemma rstrip_prefix (s : str) : exists sp, s = rstrip s ++ sp.
Proof.
  unfold rstrip. destruct (lstrip_suffix (rev s)) as [sp Hsp].
  exists (rev sp). rewrite <- rev_app_distr, <- Hsp. now rewrite rev_involutive.
Qed.

Lemma rstrip_rstrip (s : str) : rstrip (rstrip s) = rstrip s.
Proof. unfold rstrip. now rewrite rev_involutive, lstrip_lstrip. Qed.

(** What [strip] returns has no blank at either end: stripping it again
    changes nothing. *)
Lemma strip_strip (s : str) : strip (strip s) = strip s.
Proof.
  unfold strip.
  assert (Hl : lstrip (rstrip (lstrip s)) = rstrip (lstrip s)).
  { apply lstrip_fixed.
    destruct (rstrip_prefix (lstrip s)) as [sp Hsp].
    pose proof (lstrip_head s) as Hhead. rewrite Hsp in Hhead.
    destruct (rstrip (lstrip s)); [exact I|exact Hhead]. }
  rewrite Hl. apply rstrip_rstrip.
Qed.

Lemma content_from_texts (path : str) (i : Z) (paragraphs : list str) :
  map page_content (content_from path i paragraphs)
  = List.filter truthy (map strip paragraphs).
Proof.
  revert i. induction paragraphs as [|p rest IH]; intros i; simpl; [reflexivity|].
  destruct (truthy (strip p)); simpl; now rewrite IH.
Qed.

(** Each record of [content_from] against the paragraph it was made from. *)
Lemma content_from_entries (path : str) (i : Z) (paragraphs : list str) :
  Forall (fun d =>
            source (doc_metadata d) = path /\
            type (doc_metadata d) = utf8 "paragraph" /\
            i <= paragraph_id (doc_metadata d) < i + Z.of_nat (length paragraphs) /\
            strip <$> paragraphs !! Z.to_nat (paragraph_id (doc_metadata d) - i)
              = Some (page_content d) /\
            page_content d <> [])
    (content_from path i paragraphs).
Proof.
  revert i. induction paragraphs as [|p rest IH]; intros i; [constructor|].
  assert (Htail : Forall (fun d =>
            source (doc_metadata d) = path /\
            type (doc_metadata d) = utf8 "paragraph" /\
            i <= paragraph_id (doc_metadata d) < i + Z.of_nat (length (p :: rest)) /\
            strip <$> (p :: rest) !! Z.to_nat (paragraph_id (doc_metadata d) - i)
              = Some (page_content d) /\
            page_content d <> [])
    (content_from path (i + 1) rest)).
  { eapply Forall_impl; [apply (IH (i + 1))|].
    intros d (Hs & Ht & Hi & Hl & Hne). repeat split; try assumption.
    - lia.
    - simpl length. lia.
    - replace (Z.to_nat (paragraph_id (doc_metadata d) - i))
        with (S (Z.to_nat (paragraph_id (doc_metadata d) - (i + 1)))) by lia.
      exact Hl. }
  cbn [content_from]. destruct (truthy (strip p)) eqn:Hp; [|exact Htail].
  constructor; [|exact Htail]. cbn [page_content doc_metadata source type paragraph_id].
  repeat split.
  - lia.
  - simpl length. lia.
  - replace (Z.to_nat (i - i)) with 0%nat by lia. reflexivity.
  - destruct (strip p); [discriminate|congruence].
Qed.

(** The indices are kept in increasing order. *)
Lemma content_from_ascending (path : str) (i : Z) (paragraphs : list str) :
  StronglySorted Z.lt
    (map (fun d => paragraph_id (doc_metadata d)) (content_from path i paragraphs)).
Proof.
  revert i. induction paragraphs as [|p rest IH]; intros i; [constructor|].
  cbn [content_from]. destruct (truthy (strip p)); [|apply IH].
  cbn [map]. constructor; [apply IH|].
  apply Forall_map. eapply Forall_impl; [apply (content_from_entries path (i + 1) rest)|].
  cbn [doc_metadata paragraph_id]. intros d (_ & _ & Hi & _). lia.
Qed.

(** X1: [load_contract] keeps the non-blank paragraphs in order, stripped;
    each record's [paragraph_id] is the index of its paragraph among all
    paragraphs of the file, blank ones counted, so the ids increase; no
    record has an empty text or a blank at either end of it. *)
Theorem load_contract_documents :
  forall docx_paragraphs file_path documents,
    load_contract docx_paragraphs file_path = Ok documents ->
    exists paragraphs,
      docx_paragraphs file_path = Ok paragraphs /\
      map page_content documents = List.filter truthy (map strip paragraphs) /\
      Forall (fun d =>
                source (doc_metadata d) = file_path /\
                strip <$> paragraphs !! Z.to_nat (paragraph_id (doc_metadata d))
                  = Some (page_content d) /\
                page_content d <> [] /\
                strip (page_content d) = page_content d) documents /\
      StronglySorted Z.lt (map (fun d => paragraph_id (doc_metadata d)) documents).
Proof.
  intros rd path documents Hload. unfold load_contract in Hload.
  destruct (rd path) as [paragraphs|e]; [|discriminate].
  injection Hload as <-. exists paragraphs.
  split; [reflexivity|]. split; [apply content_from_texts|].
  split; [|apply content_from_ascending].
  eapply Forall_impl; [apply (content_from_entries path 0 paragraphs)|].
  intros d (Hs & _ & _ & Hl & Hne). rewrite Z.sub_0_r in Hl.
  repeat split; try assumption.
  destruct (paragraphs !! Z.to_nat (paragraph_id (doc_metadata d))) as [p|];
    [|discriminate].
  injection Hl as <-. apply strip_strip.
Qed.

Lemma load_contract_documents_witness :
  exists paragraphs,
    reader ([] :: two_articles) contract_path = Ok paragraphs /\
    map page_content (content_from contract_path 0 ([] :: two_articles))
      = List.filter truthy (map strip paragraphs) /\
    Forall (fun d =>
              source (doc_metadata d) = contract_path /\
              strip <$> paragraphs !! Z.to_nat (paragraph_id (doc_metadata d))
                = Some (page_content d) /\
              page_content d <> [] /\
              strip (page_content d) = page_content d)
      (content_from contract_path 0 ([] :: two_articles)) /\
    StronglySorted Z.lt
      (map (fun d => paragraph_id (doc_metadata d))
         (content_from contract_path 0 ([] :: two_articles))).
Proof.
  apply (load_contract_documents (reader ([] :: two_articles)) contract_path).
  reflexivity.
Defined.

End loader.

(** ** The shape of the segmentation *)

Section headings.

(** The two branches of an iteration, by the fields they assign. *)
Lemma step_heading (st : state) (doc : document) :
  _is_main_clause (page_content doc) = true ->
  truthy (current_main_clause st) || truthy (current_sub_clauses st) = true ->
  clauses (step st doc) =
    clauses st ++ [make_clause (doc_metadata doc) (current_main_title st)
                     (current_main_clause st) (current_sub_clauses st)] /\
  current_main_clause (step st doc) = [page_content doc] /\
  current_main_title (step st doc) = page_content doc /\
  current_sub_clauses (step st doc) = [].
Proof. intros Hm Hacc. unfold step. rewrite Hm, Hacc. repeat split. Qed.

Lemma step_first_heading (st : state) (doc : document) :
  _is_main_clause (page_content doc) = true ->
  truthy (current_main_clause st) || truthy (current_sub_clauses st) = false ->
  clauses (step st doc) = clauses st /\
  current_main_clause (step st doc) = [page_content doc] /\
  current_main_title (step st doc) = page_content doc /\
  current_sub_clauses (step st doc) = [].
Proof. intros Hm Hacc. unfold step. rewrite Hm, Hacc. repeat split. Qed.

Lemma append_to_last_length (subs : list str) (text : str) :
  length (append_to_last subs text) = length subs.
Proof.
  induction subs as [|s rest IH]; [reflexivity|].
  destruct rest as [|s' rest']; [reflexivity|].
  change (append_to_last (s :: s' :: rest') text)
    with (s :: append_to_last (s' :: rest') text).
  simpl in *. now rewrite IH.
Qed.

Lemma step_body (st : state) (doc : document) :
  _is_main_clause (page_content doc) = false ->
  clauses (step st doc) = clauses st /\
  current_main_title (step st doc) = current_main_title st /\
  (exists more, current_main_clause (step st doc) = current_main_clause st ++ more) /\
  length (current_sub_clauses (step st doc)) =
    (length (current_sub_clauses st) +
     if _is_sub_clause (page_content doc) then 1 else 0)%nat.
Proof.
  intros Hm. unfold step. rewrite Hm.
  destruct (_is_sub_clause (page_content doc)).
  - repeat split.
    + exists []. cbn [current_main_clause]. now rewrite app_nil_r.
    + cbn [current_sub_clauses]. now rewrite length_app.
  - destruct (truthy (current_sub_clauses st)); repeat split.
    + exists []. cbn [current_main_clause]. now rewrite app_nil_r.
    + cbn [current_sub_clauses]. rewrite append_to_last_length. lia.
    + now exists [page_content doc].
    + cbn [current_sub_clauses]. lia.
Qed.

Local Abbreviation heading := (fun d : document => _is_main_clause (page_content d)).
Local Abbreviation title_of := (fun c : clause => clause_title (clause_meta c)).
Local Abbreviation id_of := (fun c : clause => clause_paragraph_id (clause_meta c)).

(** Once an accumulator is filled, every heading closes a clause under the
    title in force and becomes the title. *)
Lemma fold_titles (docs : list document) : forall st : state,
  truthy (current_main_clause st) || truthy (current_sub_clauses st) = true ->
  map title_of (clauses (fold_left step docs st))
    ++ [current_main_title (fold_left step docs st)]
  = map title_of (clauses st)
    ++ current_main_title st :: map page_content (List.filter heading docs).
Proof.
  induction docs as [|doc rest IH]; intros st Hacc; [reflexivity|].
  cbn [fold_left List.filter].
  rewrite (IH (step st doc)) by apply step_accumulates.
  destruct (_is_main_clause (page_content doc)) eqn:Hm.
  - destruct (step_heading st doc Hm Hacc) as (-> & _ & -> & _).
    rewrite map_app. cbn [map make_clause clause_meta clause_title].
    now rewrite <- app_assoc.
  - destruct (step_body st doc Hm) as (-> & -> & _). reflexivity.
Qed.

Lemma fold_ids (docs : list document) : forall st : state,
  truthy (current_main_clause st) || truthy (current_sub_clauses st) = true ->
  map id_of (clauses (fold_left step docs st))
  = map id_of (clauses st)
    ++ map (fun d => paragraph_id (doc_metadata d)) (List.filter heading docs).
Proof.
  induction docs as [|doc rest IH]; intros st Hacc; [now rewrite app_nil_r|].
  cbn [fold_left List.filter].
  rewrite (IH (step st doc)) by apply step_accumulates.
  destruct (_is_main_clause (page_content doc)) eqn:Hm.
  - destruct (step_heading st doc Hm Hacc) as (-> & _).
    rewrite map_app. cbn [map make_clause clause_meta clause_paragraph_id].
    now rewrite <- app_assoc.
  - destruct (step_body st doc Hm) as (-> & _). reflexivity.
Qed.

Lemma last_cons {A} (l : list A) : forall x d : A,
  List.last (x :: l) d = List.last l x.
Proof.
  induction l as [|y l IH]; intros x d; [reflexivity|].
  change (List.last (x :: y :: l) d) with (List.last (y :: l) d).
  now rewrite !IH.
Qed.

(** The paragraph read last is the one whose [metadata] the final flush
    uses. *)
Lemma fold_last_metadata (docs : list document) (doc : document) (st : state) :
  last_metadata (fold_left step docs (step st doc))
  = Some (doc_metadata (List.last docs doc)).
Proof.
  revert doc st. induction docs as [|d rest IH]; intros doc st.
  - apply step_accumulates.
  - cbn [fold_left]. now rewrite IH, last_cons.
Qed.

(** The flush after the loop, once a paragraph has been read. *)
Lemma finish_after_step (docs : list document) (doc : document) (st : state) :
  finish (fold_left step docs (step st doc)) =
  clauses (fold_left step docs (step st doc)) ++
  [make_clause (doc_metadata (List.last docs doc))
     (current_main_title (fold_left step docs (step st doc)))
     (current_main_clause (fold_left step docs (step st doc)))
     (current_sub_clauses (fold_left step docs (step st doc)))].
Proof.
  unfold finish. rewrite fold_last_metadata.
  assert (Hacc' : truthy (current_main_clause (fold_left step docs (step st doc)))
                  || truthy (current_sub_clauses (fold_left step docs (step st doc)))
                  = true).
  { destruct docs as [|d rest]; [apply step_accumulates|].
    destruct (exists_last (l := d :: rest)) as (front & lastdoc & E); [discriminate|].
    rewrite E, fold_left_app. apply step_accumulates. }
  now rewrite Hacc'.
Qed.

Lemma first_step_titles (doc : document) :
  map title_of (clauses (step initial doc)) = [] /\
  current_main_title (step initial doc)
  = if _is_main_clause (page_content doc) then page_content doc else utf8 "合同前言".
Proof.
  destruct (_is_main_clause (page_content doc)) eqn:Hm.
  - destruct (step_first_heading initial doc Hm eq_refl) as (-> & _ & -> & _).
    now split.
  - destruct (step_body initial doc Hm) as (-> & -> & _). now split.
Qed.

(** X2: the titles of the clauses are the title in force after the first
    paragraph (that paragraph if it is a heading, the preamble title
    otherwise) followed by the later heading paragraphs, in order: one
    clause per heading, and one more for a leading preamble. *)
Theorem clause_titles :
  forall doc rest,
    map title_of (split_into_clauses (doc :: rest)) =
    (if _is_main_clause (page_content doc) then page_content doc else utf8 "合同前言")
    :: map page_content (List.filter heading rest).
Proof.
  intros doc rest. unfold split_into_clauses. cbn [fold_left].
  rewrite finish_after_step, map_app.
  cbn [map make_clause clause_meta clause_title].
  rewrite fold_titles by apply step_accumulates.
  destruct (first_step_titles doc) as (-> & ->). reflexivity.
Qed.

(** X3: a clause carries the [metadata] of the paragraph being read when it
    is closed, not of its own paragraphs: its [paragraph_id] is that of the
    heading that opens the next clause, and for the last clause that of the
    last paragraph of the contract. *)
Theorem clause_metadata_is_of_closing_paragraph :
  forall doc rest,
    map id_of (split_into_clauses (doc :: rest)) =
    map (fun d => paragraph_id (doc_metadata d)) (List.filter heading rest)
    ++ [paragraph_id (doc_metadata (List.last rest doc))].
Proof.
  intros doc rest. unfold split_into_clauses. cbn [fold_left].
  rewrite finish_after_step, map_app.
  cbn [map make_clause clause_meta clause_paragraph_id].
  rewrite fold_ids by apply step_accumulates.
  destruct (first_step_titles doc) as (Hc & _).
  destruct (clauses (step initial doc)); [reflexivity|discriminate].
Qed.

(** The sub-clause paragraphs counted so far: those of the closed clauses
    and those waiting in the accumulator. *)
Lemma fold_sub_clause_count (docs : list document) : forall st : state,
  (list_sum (map (fun c => sub_clause_count (clause_meta c))
               (clauses (fold_left step docs st)))
   + length (current_sub_clauses (fold_left step docs st)))%nat
  = (list_sum (map (fun c => sub_clause_count (clause_meta c)) (clauses st))
     + length (current_sub_clauses st)
     + length (List.filter (fun d => negb (heading d) && _is_sub_clause (page_content d))
                 docs))%nat.
Proof.
  induction docs as [|doc rest IH]; intros st; [simpl; lia|].
  cbn [fold_left List.filter]. rewrite (IH (step st doc)).
  destruct (_is_main_clause (page_content doc)) eqn:Hm; cbn [negb andb].
  - destruct (truthy (current_main_clause st) || truthy (current_sub_clauses st)) eqn:Hacc.
    + destruct (step_heading st doc Hm Hacc) as (-> & _ & _ & ->).
      rewrite map_app, list_sum_app.
      cbn [map make_clause clause_meta sub_clause_count length].
      unfold list_sum at 2. cbn [fold_right]. lia.
    + destruct (step_first_heading st doc Hm Hacc) as (-> & _ & _ & ->).
      apply orb_false_iff in Hacc as [_ Hs].
      destruct (current_sub_clauses st); [simpl; lia|discriminate].
  - destruct (step_body st doc Hm) as (-> & _ & _ & ->).
    destruct (_is_sub_clause (page_content doc)); cbn [length]; lia.
Qed.

(** X4: the [sub_clause_count] fields add up to the number of paragraphs
    classified as sub-clauses (and not as headings): each is counted in
    exactly one clause, and a plain paragraph appended to a sub-clause is not
    counted. *)
Theorem sub_clause_counts_add_up :
  forall documents,
    list_sum (map (fun c => sub_clause_count (clause_meta c))
                (split_into_clauses documents))
    = length (List.filter (fun d => negb (heading d) && _is_sub_clause (page_content d))
                documents).
Proof.
  intros [|doc rest]; [reflexivity|].
  pose proof (fold_sub_clause_count (doc :: rest) initial) as H.
  unfold split_into_clauses. cbn [fold_left] in *.
  rewrite finish_after_step, map_app, list_sum_app.
  cbn [map make_clause clause_meta sub_clause_count].
  unfold list_sum at 2. cbn [fold_right].
  cbn [initial clauses current_sub_clauses map length] in H.
  unfold list_sum at 2 in H. cbn [fold_right] in H. lia.
Qed.

(** While the title in force is a heading, the main accumulator starts
    with it; every closed clause under a heading starts with the heading. *)
Lemma startswith_app (t u : str) : startswith t (t ++ u) = true.
Proof.
  induction t as [|c t IH]; [reflexivity|]. simpl. now rewrite N.eqb_refl.
Qed.

Lemma startswith_join (t : str) (parts : list str) :
  startswith t (join [newline] (t :: parts)) = true.
Proof.
  destruct parts as [|p parts].
  - simpl. rewrite <- (app_nil_r t) at 2. apply startswith_app.
  - change (join [newline] (t :: p :: parts))
      with (t ++ [newline] ++ join [newline] (p :: parts)).
    apply startswith_app.
Qed.

Local Abbreviation opens_with_title :=
  (fun c : clause =>
     _is_main_clause (title_of c) = true ->
     startswith (title_of c) (clause_content c) = true).

Local Abbreviation heading_opens st :=
  (_is_main_clause (current_main_title st) = true ->
   exists more, current_main_clause st = current_main_title st :: more).

Lemma make_clause_opens (md : metadata) (st : state) :
  heading_opens st ->
  opens_with_title (make_clause md (current_main_title st)
                      (current_main_clause st) (current_sub_clauses st)).
Proof.
  intros Hst Hm. cbn [make_clause clause_meta clause_title clause_content] in *.
  destruct (Hst Hm) as [more ->]. unfold _combine_clause_content.
  apply startswith_join.
Qed.

Lemma step_opens (st : state) (doc : document) :
  Forall opens_with_title (clauses st) -> heading_opens st ->
  Forall opens_with_title (clauses (step st doc)) /\ heading_opens (step st doc).
Proof.
  intros Hcl Hst.
  destruct (_is_main_clause (page_content doc)) eqn:Hm.
  - destruct (truthy (current_main_clause st) || truthy (current_sub_clauses st)) eqn:Hacc.
    + destruct (step_heading st doc Hm Hacc) as (-> & -> & -> & _). split.
      * apply Forall_app. split; [exact Hcl|].
        constructor; [|constructor]. now apply make_clause_opens.
      * intros _. now exists [].
    + destruct (step_first_heading st doc Hm Hacc) as (-> & -> & -> & _). split.
      * exact Hcl.
      * intros _. now exists [].
  - destruct (step_body st doc Hm) as (-> & -> & [more ->] & _). split.
    + exact Hcl.
    + intros Ht. destruct (Hst Ht) as [more' ->]. now exists (more' ++ more).
Qed.

Lemma fold_opens (docs : list document) : forall st : state,
  Forall opens_with_title (clauses st) -> heading_opens st ->
  Forall opens_with_title (clauses (fold_left step docs st)) /\
  heading_opens (fold_left step docs st).
Proof.
  induction docs as [|doc rest IH]; intros st Hcl Hst; [now split|].
  cbn [fold_left]. destruct (step_opens st doc Hcl Hst) as [Hcl' Hst'].
  now apply IH.
Qed.

(** X5: the body of every clause whose title is a heading begins with that
    heading; only a preamble clause, titled by the fixed preamble title,
    does not hold its title. *)
Theorem clause_body_opens_with_heading :
  forall documents,
    Forall (fun c =>
              _is_main_clause (clause_title (clause_meta c)) = true ->
              startswith (clause_title (clause_meta c)) (clause_content c) = true)
      (split_into_clauses documents) /\
    _is_main_clause (utf8 "合同前言") = false.
Proof.
  intros documents. split; [|vm_compute; reflexivity].
  destruct (fold_opens documents initial) as [Hcl Hst].
  { constructor. }
  { intros Hm. vm_compute in Hm. discriminate. }
  unfold split_into_clauses, finish.
  destruct (truthy (current_main_clause (fold_left step documents initial))
            || truthy (current_sub_clauses (fold_left step documents initial)));
    [|exact Hcl].
  destruct (last_metadata (fold_left step documents initial)) as [md|]; [|exact Hcl].
  apply Forall_app. split; [exact Hcl|].
  constructor; [|constructor]. now apply make_clause_opens.
Qed.

End headings.

(** ** Substrings and lines *)

Section substrings.

Lemma startswith_prefix (p : str) : forall s : str,
  startswith p s = true <-> exists post, s = p ++ post.
Proof.
  induction p as [|a p IH]; intros s.
  - split; [intros _; now exists s|reflexivity].
  - destruct s as [|b s]; simpl.
    + split; [discriminate|]. intros [post H]. discriminate.
    + rewrite andb_true_iff, N.eqb_eq, IH. split.
      * intros [-> [post ->]]. now exists post.
      * intros [post H]. injection H as -> ->. split; [reflexivity|now exists post].
Qed.

(** [kw in s]: [s] holds [kw] somewhere. *)
Lemma contains_infix (kw s : str) :
  contains kw s = true <-> exists pre post, s = pre ++ kw ++ post.
Proof.
  induction s as [|c s IH].
  - simpl. rewrite orb_false_r, startswith_prefix. split.
    + intros [post H]. now exists [], post.
    + intros (pre & post & H). symmetry in H.
      apply app_eq_nil in H as [-> H]. now exists post.
  - change (contains kw (c :: s)) with (startswith kw (c :: s) || contains kw s).
    rewrite orb_true_iff, startswith_prefix, IH. split.
    + intros [[post H]|(pre & post & ->)].
      * now exists [], post.
      * now exists (c :: pre), post.
    + intros (pre & post & H). destruct pre as [|c' pre].
      * left. now exists post.
      * right. simpl in H. injection H as <- ->. now exists pre, post.
Qed.

Lemma contains_trans (a b c : str) :
  contains a b = true -> contains b c = true -> contains a c = true.
Proof.
  rewrite !contains_infix. intros (p1 & q1 & ->) (p2 & q2 & ->).
  exists (p2 ++ p1), (q1 ++ q2). now rewrite <- !app_assoc.
Qed.

Lemma contains_extend (kw before s after : str) :
  contains kw s = true -> contains kw (before ++ s ++ after) = true.
Proof.
  rewrite !contains_infix. intros (p & q & ->).
  exists (before ++ p), (q ++ after). now rewrite <- !app_assoc.
Qed.

Lemma startswith_contains (kw s : str) :
  startswith kw s = true -> contains kw s = true.
Proof. intros H. destruct s; simpl in *; now rewrite H. Qed.

(** [split] never returns the empty list. *)
Lemma split_cons (c : N) (s : str) : exists h t, split c s = h :: t.
Proof.
  induction s as [|x s (h & t & IH)]; [now exists [], []|]. simpl.
  destruct (x =? c)%N; [now exists [], (split c s)|]. rewrite IH. now exists (x :: h), t.
Qed.

(** A keyword with no newline that starts the text starts its first line. *)
Lemma startswith_first_line (kw : str) : forall s : str,
  ~ In newline kw -> startswith kw s = true ->
  exists h t, split newline s = h :: t /\ startswith kw h = true.
Proof.
  induction kw as [|a kw IH]; intros s Hnl Hs.
  - destruct (split_cons newline s) as (h & t & E). now exists h, t.
  - destruct s as [|x s]; [discriminate|]. simpl in Hs.
    apply andb_true_iff in Hs as [Hax Hs]. apply N.eqb_eq in Hax as <-.
    destruct (IH s) as (h & t & E & Hh); [intros H; apply Hnl; now right|exact Hs|].
    simpl. destruct (a =? newline)%N eqn:Ea.
    + apply N.eqb_eq in Ea. exfalso. apply Hnl. now left.
    + rewrite E. exists (a :: h), t. split; [reflexivity|].
      simpl. now rewrite N.eqb_refl.
Qed.

(** A keyword with no newline that occurs in the text occurs in one of its
    lines. *)
Lemma find_line_exists (kw : str) (s : str) :
  ~ In newline kw -> contains kw s = true ->
  forall i, exists j, find_line kw (split newline s) i = Some j.
Proof.
  intros Hnl. induction s as [|x s IH]; intros Hs i.
  - cbn [split find_line]. rewrite Hs. now exists i.
  - change (contains kw (x :: s)) with (startswith kw (x :: s) || contains kw s) in Hs.
    apply orb_true_iff in Hs as [Hs|Hs].
    + destruct (startswith_first_line kw (x :: s) Hnl Hs) as (h & t & -> & Hh).
      cbn [find_line]. rewrite (startswith_contains _ _ Hh). now exists i.
    + cbn [split]. destruct (x =? newline)%N.
      * cbn [find_line]. destruct (contains kw []); [now exists i|]. now apply IH.
      * destruct (split_cons newline s) as (h & t & E).
        destruct (IH Hs i) as [j Hj]. rewrite E in Hj |- *.
        cbn [find_line] in Hj |- *.
        destruct (contains kw h) eqn:Hh.
        -- change (contains kw (x :: h)) with (startswith kw (x :: h) || contains kw h).
           rewrite Hh, orb_true_r. now exists i.
        -- destruct (contains kw (x :: h)); [now exists i|now exists j].
Qed.

(** [find_line] returns the index of the first line that holds the
    keyword. *)
Lemma find_line_first (kw : str) (lines : list str) : forall (i j : nat),
  find_line kw lines i = Some j ->
  exists k line,
    j = (i + k)%nat /\ lines !! k = Some line /\ contains kw line = true /\
    forall k' line', (k' < k)%nat -> lines !! k' = Some line' ->
                     contains kw line' = false.
Proof.
  induction lines as [|l lines IH]; intros i j H; [discriminate|].
  cbn [find_line] in H. destruct (contains kw l) eqn:Hl.
  - injection H as <-. exists 0%nat, l. repeat split; [lia|assumption|].
    intros k' line' Hk. lia.
  - destruct (IH _ _ H) as (k & line & -> & Hk & Hc & Hfirst).
    exists (S k), line. repeat split; [lia|assumption|assumption|].
    intros [|k'] line' Hlt Hk'.
    + injection Hk' as <-. exact Hl.
    + apply (Hfirst k' line'); [lia|exact Hk'].
Qed.

End substrings.

(** ** The detector *)

Section detector.

(** The finding a keyword gives, and the finding a pattern gives. *)
Local Abbreviation keyword_risk :=
  (fun (content risk_id : str) (r : rule) (keyword : str) =>
     {| risk_type := name r;
        level := medium;
        description := utf8 "发现关键词: " ++ keyword;
        position := _find_keyword_position content keyword;
        category := risk_id |}).

Local Abbreviation pattern_risk :=
  (fun (risk_id : str) (r : rule) (p : regex * str) =>
     {| risk_type := name r;
        level := high;
        description := snd p;
        position := utf8 "条款内容";
        category := risk_id |}).

Lemma in_rule_risks (content risk_id : str) (r : rule) (f : risk) :
  In f (rule_risks content risk_id r) <->
  (exists keyword, In keyword (keywords r) /\ contains keyword content = true /\
                   f = keyword_risk content risk_id r keyword) \/
  (exists p : regex * str, In p (patterns r) /\ re_search (fst p) content = true /\
                           f = pattern_risk risk_id r p).
Proof.
  unfold rule_risks. rewrite in_app_iff, !in_flat_map. split.
  - intros [(kw & Hin & Hf)|(p & Hin & Hf)].
    + left. exists kw. destruct (contains kw content); [|destruct Hf].
      destruct Hf as [<-|[]]. now repeat split.
    + right. exists p. destruct (re_search (fst p) content); [|destruct Hf].
      destruct Hf as [<-|[]]. now repeat split.
  - intros [(kw & Hin & Hc & ->)|(p & Hin & Hs & ->)].
    + left. exists kw. split; [exact Hin|]. rewrite Hc. now left.
    + right. exists p. split; [exact Hin|]. rewrite Hs. now left.
Qed.

Lemma in_detect (content : str) (f : risk) :
  In f (_detect_detailed_risks content) <->
  exists entry : str * rule,
    In entry _load_risk_rules /\ In f (rule_risks content (fst entry) (snd entry)).
Proof. unfold _detect_detailed_risks. apply in_flat_map. Qed.

(** No keyword of the table holds a newline. *)
Lemma table_keywords_one_line :
  Forall (fun entry : str * rule =>
            Forall (fun keyword => ~ In newline keyword) (keywords (snd entry)))
    _load_risk_rules.
Proof.
  repeat constructor; vm_compute; intros H;
    repeat (destruct H as [H|H]; [discriminate H|]); exact H.
Qed.

Lemma find_line_bound (kw : str) (lines : list str) : forall (i j : nat),
  find_line kw lines i = Some j -> (i <= j < i + length lines)%nat.
Proof.
  induction lines as [|l lines IH]; intros i j H; [discriminate|].
  cbn [find_line] in H. destruct (contains kw l).
  - injection H as <-. simpl. lia.
  - apply IH in H. simpl. lia.
Qed.

(** X6: a keyword that holds no newline and occurs in the content is
    located on a line: [_find_keyword_position] names the first line (from
    1) that holds it, and its fallback is not reached. *)
Theorem keyword_position_is_first_line :
  forall content keyword,
    ~ In newline keyword ->
    contains keyword content = true ->
    exists i line,
      _find_keyword_position content keyword
        = utf8 "第" ++ str_of_nat (i + 1) ++ utf8 "行" /\
      split newline content !! i = Some line /\
      contains keyword line = true /\
      forall j line', (j < i)%nat -> split newline content !! j = Some line' ->
                      contains keyword line' = false.
Proof.
  intros content keyword Hnl Hc.
  destruct (find_line_exists keyword content Hnl Hc 0%nat) as [j Hj].
  destruct (find_line_first _ _ _ _ Hj) as (k & line & -> & Hk & Hline & Hfirst).
  exists k, line. unfold _find_keyword_position. rewrite Hj. now repeat split.
Qed.

Lemma keyword_position_is_first_line_witness :
  exists i line,
    _find_keyword_position (clause_content payment_clause) (utf8 "违约金")
      = utf8 "第" ++ str_of_nat (i + 1) ++ utf8 "行" /\
    split newline (clause_content payment_clause) !! i = Some line /\
    contains (utf8 "违约金") line = true /\
    forall j line', (j < i)%nat ->
                    split newline (clause_content payment_clause) !! j = Some line' ->
                    contains (utf8 "违约金") line' = false.
Proof.
  apply (keyword_position_is_first_line (clause_content payment_clause) (utf8 "违约金")).
  - vm_compute. intros H. repeat (destruct H as [H|H]; [discriminate H|]). exact H.
  - vm_compute. reflexivity.
Defined.

(** X7: in what the detector returns, every keyword finding (medium) is
    positioned on a line of the content, numbered from 1, and every pattern
    finding (high) has the position 条款内容. *)
Theorem finding_positions :
  forall content,
    Forall (fun f =>
              match level f with
              | medium =>
                  exists i, (i < length (split newline content))%nat /\
                            position f = utf8 "第" ++ str_of_nat (i + 1) ++ utf8 "行"
              | high => position f = utf8 "条款内容"
              end)
      (_detect_detailed_risks content).
Proof.
  intros content. apply List.Forall_forall. intros f Hf.
  apply in_detect in Hf as (entry & Hentry & Hf).
  apply in_rule_risks in Hf as [(kw & Hkw & Hc & ->)|(p & Hp & Hs & ->)];
    [|reflexivity].
  cbn [level position].
  pose proof table_keywords_one_line as Htable.
  rewrite List.Forall_forall in Htable. specialize (Htable entry Hentry).
  rewrite List.Forall_forall in Htable. specialize (Htable kw Hkw).
  destruct (find_line_exists kw content Htable Hc 0%nat) as [j Hj].
  exists j. unfold _find_keyword_position. rewrite Hj. split; [|reflexivity].
  apply find_line_bound in Hj. lia.
Qed.

Lemma re_search_extend (r : regex) (before s after : str) :
  re_search r s = true -> re_search r (before ++ s ++ after) = true.
Proof.
  rewrite !re_search_infix. intros (b & f & a & -> & Hm).
  exists (before ++ b), f, (a ++ after). split; [|exact Hm].
  now rewrite <- !app_assoc.
Qed.

Lemma count_level_flat_map_le {A} (l : severity) (f g : A -> list risk) (xs : list A) :
  (forall x, count_level l (f x) <= count_level l (g x)) ->
  count_level l (flat_map f xs) <= count_level l (flat_map g xs).
Proof.
  intros Hfg. induction xs as [|x xs IH]; [reflexivity|].
  cbn [flat_map]. rewrite !count_level_app. specialize (Hfg x). lia.
Qed.

Lemma count_level_guarded_le (l : severity) (b b' : bool) (f f' : risk) :
  (b = true -> b' = true) -> level f = level f' ->
  count_level l (if b then [f] else []) <= count_level l (if b' then [f'] else []).
Proof.
  intros Hb Hl. destruct b.
  - rewrite Hb by reflexivity. rewrite !count_level_cons, Hl. lia.
  - apply count_level_nonneg.
Qed.

(** Text added around a content only adds findings of each severity. *)
Lemma detect_counts_extend (l : severity) (before content after : str) :
  count_level l (_detect_detailed_risks content)
  <= count_level l (_detect_detailed_risks (before ++ content ++ after)).
Proof.
  unfold _detect_detailed_risks. apply count_level_flat_map_le. intros entry.
  unfold rule_risks. rewrite !count_level_app.
  apply Z.add_le_mono; apply count_level_flat_map_le; intros x;
    apply count_level_guarded_le; try reflexivity.
  - apply contains_extend.
  - apply re_search_extend.
Qed.

(** X8: text added before or after a content loses no finding (each is
    found again with the same type, severity, description and category;
    only its line may move) and never raises the score. *)
Theorem longer_text_never_scores_higher :
  forall before content after,
    (forall f, In f (_detect_detailed_risks content) ->
       exists f', In f' (_detect_detailed_risks (before ++ content ++ after)) /\
                  risk_type f' = risk_type f /\ level f' = level f /\
                  description f' = description f /\ category f' = category f) /\
    _calculate_risk_score (_detect_detailed_risks (before ++ content ++ after))
    <= _calculate_risk_score (_detect_detailed_risks content).
Proof.
  intros before content after. split.
  - intros f Hf. apply in_detect in Hf as (entry & Hentry & Hf).
    apply in_rule_risks in Hf as [(kw & Hkw & Hc & ->)|(p & Hp & Hs & ->)].
    + exists (keyword_risk (before ++ content ++ after) (fst entry) (snd entry) kw).
      split; [|now repeat split].
      apply in_detect. exists entry. split; [exact Hentry|].
      apply in_rule_risks. left. exists kw.
      split; [exact Hkw|]. split; [now apply contains_extend|reflexivity].
    + exists (pattern_risk (fst entry) (snd entry) p).
      split; [|now repeat split].
      apply in_detect. exists entry. split; [exact Hentry|].
      apply in_rule_risks. right. exists p.
      split; [exact Hp|]. split; [now apply re_search_extend|reflexivity].
  - rewrite !score_formula.
    pose proof (detect_counts_extend high before content after).
    pose proof (detect_counts_extend medium before content after). lia.
Qed.

(** The values a score can take. *)
Lemma score_steps (risks : list risk) :
  exists k, 0 <= k /\ _calculate_risk_score risks = Z.max 30 (85 - 10 * k).
Proof.
  exists (2 * count_level high risks + count_level medium risks).
  pose proof (count_level_nonneg high risks).
  pose proof (count_level_nonneg medium risks).
  rewrite score_formula. split; [lia|]. f_equal. lia.
Qed.

(** X9: a score is one of 85, 75, 65, 55, 45, 35 and 30: the reduction is a
    multiple of ten and the floor is 30, so the score 30 is the only
    multiple of ten and a clause never scores between 76 and 84. *)
Theorem score_values :
  forall risks, In (_calculate_risk_score risks) [85; 75; 65; 55; 45; 35; 30].
Proof.
  intros risks. destruct (score_steps risks) as (k & Hk & ->).
  assert (Hcases : k = 0 \/ k = 1 \/ k = 2 \/ k = 3 \/ k = 4 \/ k = 5 \/ 6 <= k) by lia.
  destruct Hcases as [->|[->|[->|[->|[->|[->|H6]]]]]];
    try solve [vm_compute; auto 10].
  rewrite Z.max_l by lia. cbn [In]. auto 10.
Qed.

End detector.

(** ** The patterns of the rule table *)

Section rule_patterns.

Local Abbreviation keyword_risk :=
  (fun (content risk_id : str) (r : rule) (keyword : str) =>
     {| risk_type := name r;
        level := medium;
        description := utf8 "发现关键词: " ++ keyword;
        position := _find_keyword_position content keyword;
        category := risk_id |}).

Lemma matches_chr_inv (c : N) (s : str) : matches (Chr c) s -> s = [c].
Proof. intros H. now inversion H. Qed.

Lemma matches_lit (p : str) : forall s : str, matches (Lit p) s <-> s = p.
Proof.
  induction p as [|c p IH]; intros s; simpl.
  - split; [intros H; now inversion H|intros ->; constructor].
  - split.
    + intros H. apply matches_cat_inv in H as (s1 & s2 & -> & H1 & H2).
      apply matches_chr_inv in H1 as ->. apply IH in H2 as ->. reflexivity.
    + intros ->. change (c :: p) with ([c] ++ p).
      constructor; [constructor|now apply IH].
Qed.

(** [.*] matches the runs that hold no newline. *)
Lemma matches_star_dot (s : str) : matches (Star Dot) s <-> ~ In newline s.
Proof.
  split.
  - intros H. remember (Star Dot) as r eqn:Er.
    induction H as [| | | | | | | | |r0 s1 s2 H1 _ H2 IH2]; try discriminate.
    + intros [].
    + injection Er as ->. inversion H1; subst.
      intros [Hc|Hin]; [congruence|]. now apply IH2.
  - induction s as [|c s IH]; intros Hnl; [constructor|].
    change (c :: s) with ([c] ++ s). constructor.
    + constructor. intros ->. apply Hnl. now left.
    + apply IH. intros Hin. apply Hnl. now right.
Qed.

(** A pattern that is a literal run finds what [in] finds. *)
Lemma search_lit (p s : str) : re_search (Lit p) s = true <-> contains p s = true.
Proof.
  rewrite re_search_infix, contains_infix. split.
  - intros (b & f & a & -> & Hf). apply matches_lit in Hf as ->. now exists b, a.
  - intros (b & a & ->). exists b, p, a. split; [reflexivity|now apply matches_lit].
Qed.

(** A pattern that starts with a literal run is found only where that run
    is. *)
Lemma search_cat_lit (p : str) (r : regex) (s : str) :
  re_search (Cat (Lit p) r) s = true -> contains p s = true.
Proof.
  rewrite re_search_infix, contains_infix. intros (b & f & a & -> & Hf).
  apply matches_cat_inv in Hf as (s1 & s2 & -> & H1 & _).
  apply matches_lit in H1 as ->. exists b, (s2 ++ a). now rewrite <- app_assoc.
Qed.

(** [p1.*p2] finds [p1], then a run with no newline, then [p2]. *)
Lemma search_gap (p1 p2 s : str) :
  re_search (gap p1 p2) s = true <->
  exists before mid after, s = before ++ p1 ++ mid ++ p2 ++ after /\ ~ In newline mid.
Proof.
  unfold gap. rewrite re_search_infix. split.
  - intros (b & f & a & -> & Hf).
    apply matches_cat_inv in Hf as (s1 & s' & -> & H1 & Hf).
    apply matches_cat_inv in Hf as (mid & s2 & -> & Hmid & H2).
    apply matches_lit in H1 as ->. apply matches_lit in H2 as ->.
    apply matches_star_dot in Hmid. exists b, mid, a.
    split; [|exact Hmid]. now rewrite <- !app_assoc.
  - intros (b & mid & a & -> & Hmid).
    exists b, (p1 ++ mid ++ p2), a. split; [now rewrite <- !app_assoc|].
    constructor; [now apply matches_lit|].
    constructor; [now apply matches_star_dot|now apply matches_lit].
Qed.

Lemma search_gap_last (p1 p2 s : str) :
  re_search (gap p1 p2) s = true -> contains p2 s = true.
Proof.
  rewrite search_gap, contains_infix. intros (b & mid & a & -> & _).
  exists (b ++ p1 ++ mid), a. now rewrite <- !app_assoc.
Qed.

Lemma keyword_found (content : str) (entry : str * rule) (keyword : str) :
  In entry _load_risk_rules -> In keyword (keywords (snd entry)) ->
  contains keyword content = true ->
  exists f, In f (_detect_detailed_risks content) /\
            level f = medium /\ category f = fst entry.
Proof.
  intros Hentry Hkw Hc.
  exists (keyword_risk content (fst entry) (snd entry) keyword).
  split; [|now split]. apply in_detect. exists entry. split; [exact Hentry|].
  apply in_rule_risks. left. exists keyword. now repeat split.
Qed.

Lemma count_level_in (l : severity) (f : risk) (risks : list risk) :
  In f risks -> level f = l -> 1 <= count_level l risks.
Proof.
  intros Hin Hl. induction risks as [|r risks IH]; [destruct Hin|].
  rewrite count_level_cons. pose proof (count_level_nonneg l risks).
  destruct Hin as [->|Hin].
  - rewrite Hl. destruct l; simpl; lia.
  - specialize (IH Hin). destruct (severity_eqb (level r) l); lia.
Qed.

Lemma tier_high (score : Z) : score < 60 -> _get_risk_level score = utf8 "高风险".
Proof.
  intros H. unfold _get_risk_level.
  destruct (80 <=? score) eqn:E80; [lia|].
  destruct (60 <=? score) eqn:E60; [lia|reflexivity].
Qed.

(** Every pattern of the table but 友好协商解决 holds a keyword of its own
    rule in a literal part, so where it is found the keyword is too. *)
Lemma pattern_brings_keyword (content : str) (entry : str * rule) (p : regex * str) :
  In entry _load_risk_rules -> In p (patterns (snd entry)) ->
  re_search (fst p) content = true ->
  snd p <> utf8 "解决方式模糊" ->
  exists keyword, In keyword (keywords (snd entry)) /\ contains keyword content = true.
Proof.
  intros Hentry Hp Hs Hd. destruct p as [pattern d]. cbn [fst snd] in Hs, Hd.
  unfold _load_risk_rules in Hentry. cbn [In] in Hentry.
  destruct Hentry as [<-|[<-|[<-|[]]]]; cbn [snd patterns In] in Hp;
    destruct Hp as [Hp|[Hp|[Hp|[]]]]; apply pair_equal_spec in Hp as [<- <-]; cbn [snd keywords].
  - exists (utf8 "支付"). split; [cbn [In]; left; reflexivity|].
    apply search_gap_last in Hs.
    apply (contains_trans _ (utf8 "验收合格后支付")); [vm_compute; reflexivity|exact Hs].
  - exists (utf8 "支付"). split; [cbn [In]; left; reflexivity|].
    now apply search_cat_lit in Hs.
  - exists (utf8 "违约金"). split; [cbn [In]; do 2 right; left; reflexivity|].
    now apply search_cat_lit in Hs.
  - exists (utf8 "标准"). split; [cbn [In]; do 2 right; left; reflexivity|].
    apply search_gap_last in Hs.
    apply (contains_trans _ (utf8 "标准验收")); [vm_compute; reflexivity|exact Hs].
  - exists (utf8 "尽快"). split; [cbn [In]; do 6 right; left; reflexivity|].
    apply search_lit in Hs.
    apply (contains_trans _ (utf8 "尽快处理")); [vm_compute; reflexivity|exact Hs].
  - exists (utf8 "标准"). split; [cbn [In]; do 2 right; left; reflexivity|].
    apply search_lit in Hs.
    apply (contains_trans _ (utf8 "行业通用标准")); [vm_compute; reflexivity|exact Hs].
  - exists (utf8 "责任"). split; [cbn [In]; do 5 right; left; reflexivity|].
    apply search_lit in Hs.
    apply (contains_trans _ (utf8 "乙方承担全部责任")); [vm_compute; reflexivity|exact Hs].
  - exists (utf8 "诉讼"). split; [cbn [In]; do 1 right; left; reflexivity|].
    now apply search_gap_last in Hs.
  - exfalso. apply Hd. reflexivity.
Qed.

(** X10: a clause with a pattern finding scores at most 65; unless the
    pattern is 友好协商解决 the content also holds a keyword of the same
    rule, so the clause has a medium finding of that category as well,
    scores at most 55 and is in the high tier. *)
Theorem pattern_finding_makes_clause_high_risk :
  forall content,
    Forall (fun f =>
              level f = high ->
              _calculate_risk_score (_detect_detailed_risks content) <= 65 /\
              (description f <> utf8 "解决方式模糊" ->
               (exists f', In f' (_detect_detailed_risks content) /\
                           level f' = medium /\ category f' = category f) /\
               _calculate_risk_score (_detect_detailed_risks content) <= 55 /\
               _get_risk_level (_calculate_risk_score (_detect_detailed_risks content))
               = utf8 "高风险"))
      (_detect_detailed_risks content).
Proof.
  intros content. apply List.Forall_forall. intros f Hf Hhigh.
  pose proof (count_level_in high f _ Hf Hhigh) as Hh.
  pose proof (count_level_nonneg medium (_detect_detailed_risks content)) as Hm0.
  split; [rewrite score_formula; lia|]. intros Hd.
  apply in_detect in Hf as (entry & Hentry & Hf).
  apply in_rule_risks in Hf as [(kw & _ & _ & ->)|(p & Hp & Hs & ->)];
    [discriminate Hhigh|].
  cbn [description category] in *.
  destruct (pattern_brings_keyword content entry p Hentry Hp Hs Hd) as (kw & Hkw & Hc).
  destruct (keyword_found content entry kw Hentry Hkw Hc) as (f' & Hf' & Hl' & Hc').
  pose proof (count_level_in medium f' _ Hf' Hl') as Hm.
  assert (Hscore : _calculate_risk_score (_detect_detailed_risks content) <= 55)
    by (rewrite score_formula; lia).
  split; [now exists f'|]. split; [exact Hscore|]. apply tier_high. lia.
Qed.

Local Abbreviation found :=
  (fun (content d : str) =>
     exists f, In f (_detect_detailed_risks content) /\ description f = d).

Local Abbreviation spans :=
  (fun (content p1 p2 : str) =>
     exists before mid after,
       content = before ++ p1 ++ mid ++ p2 ++ after /\ ~ In newline mid).

(** A description of a pattern is reported exactly when a pattern of the
    table with that description is found. *)
Lemma found_description (content d : str) :
  found content d <->
  exists (entry : str * rule),
    In entry _load_risk_rules /\
    ((exists keyword, In keyword (keywords (snd entry)) /\
                      contains keyword content = true /\
                      utf8 "发现关键词: " ++ keyword = d) \/
     (exists p : regex * str, In p (patterns (snd entry)) /\
                              re_search (fst p) content = true /\ snd p = d)).
Proof.
  split.
  - intros (f & Hf & Hd). apply in_detect in Hf as (entry & Hentry & Hf).
    exists entry. split; [exact Hentry|].
    apply in_rule_risks in Hf as [(kw & Hkw & Hc & ->)|(p & Hp & Hs & ->)].
    + left. now exists kw.
    + right. now exists p.
  - intros (entry & Hentry & [(kw & Hkw & Hc & Hd)|(p & Hp & Hs & Hd)]).
    + exists (keyword_risk content (fst entry) (snd entry) kw). split; [|exact Hd].
      apply in_detect. exists entry. split; [exact Hentry|].
      apply in_rule_risks. left. now exists kw.
    + exists {| risk_type := name (snd entry); level := high; description := snd p;
                position := utf8 "条款内容"; category := fst entry |}.
      split; [|exact Hd].
      apply in_detect. exists entry. split; [exact Hentry|].
      apply in_rule_risks. right. now exists p.
Qed.

Lemma found_by_pattern (content d : str) (pattern : regex) :
  (exists entry : str * rule,
     In entry _load_risk_rules /\ In (pattern, d) (patterns (snd entry))) ->
  (forall (entry : str * rule) (pattern' : regex),
     In entry _load_risk_rules -> In (pattern', d) (patterns (snd entry)) ->
     pattern' = pattern) ->
  (forall keyword, utf8 "发现关键词: " ++ keyword <> d) ->
  found content d <-> re_search pattern content = true.
Proof.
  intros (entry & Hentry & Hp) Honly Hkw. rewrite found_description. split.
  - intros (entry' & Hentry' & [(kw & _ & _ & Hd')|([pattern' d'] & Hp' & Hs & Hd')]).
    + destruct (Hkw kw Hd').
    + cbn [fst snd] in Hs, Hd'. subst d'.
      now rewrite <- (Honly entry' pattern' Hentry' Hp').
  - intros Hs. exists entry. split; [exact Hentry|]. right. now exists (pattern, d).
Qed.

(** The one pattern of the table with a given description. *)
Ltac only_pattern :=
  let entry := fresh "entry" in
  let Hentry := fresh "Hentry" in
  let Hp := fresh "Hp" in
  let Hd := fresh "Hd" in
  intros entry ? Hentry Hp;
  unfold _load_risk_rules in Hentry; cbn [In] in Hentry;
  destruct Hentry as [<-|[<-|[<-|[]]]]; cbn [snd patterns In] in Hp;
  destruct Hp as [Hp|[Hp|[Hp|[]]]]; apply pair_equal_spec in Hp as [<- Hd];
  first [reflexivity|vm_compute in Hd; discriminate Hd].

Ltac not_a_keyword :=
  let H := fresh "H" in intros ? H; vm_compute in H; discriminate H.

(** X11: the three patterns of the form [p1.*p2] are found only within one
    line: 付款条件模糊, 验收标准模糊 and 管辖地单方有利 are reported exactly when
    the content holds the first phrase and, later with no newline between
    them, the second. *)
Theorem span_patterns_stay_on_a_line :
  forall content,
    (found content (utf8 "付款条件模糊")
     <-> spans content (utf8 "剩余款项") (utf8 "验收合格后支付")) /\
    (found content (utf8 "验收标准模糊")
     <-> spans content (utf8 "按照") (utf8 "标准验收")) /\
    (found content (utf8 "管辖地单方有利")
     <-> spans content (utf8 "甲方所在地") (utf8 "诉讼")).
Proof.
  intros content. rewrite <- !search_gap.
  split; [|split]; apply found_by_pattern; try only_pattern; try not_a_keyword.
  - eexists. split; [left; reflexivity|left; reflexivity].
  - eexists. split; [right; left; reflexivity|left; reflexivity].
  - eexists. split; [right; right; left; reflexivity|right; left; reflexivity].
Qed.

End rule_patterns.

(** ** Reports *)

Section reports.

Local Abbreviation summary_of := (fun high_risk_count : nat =>
  if (high_risk_count =? 0)%nat then
    utf8 "合同整体风险可控，建议关注个别中风险条款。"
  else if (high_risk_count <=? 2)%nat then
    utf8 "合同存在少量高风险条款，建议重点审查付款条件、违约责任等条款。"
  else utf8 "合同存在多处高风险条款，建议法务部门重点审查。").

(** The report in terms of the scores and the finding counts read in the
    analyses. *)
Lemma generate_report_value (use_llm : bool) (analysis : list dict)
    (counts scores : list Z) :
  risk_counts analysis = Ok counts ->
  risk_scores analysis = Ok scores ->
  analysis <> [] ->
  _generate_report use_llm analysis =
  Ok {| overall_risk_score := sum scores / Z.of_nat (length analysis);
        WorkingContractAI.risk_level :=
          _get_risk_level (sum scores / Z.of_nat (length analysis));
        total_clauses := length analysis;
        total_risks_found := sum counts;
        high_risk_clauses := count (fun s => s <? 60) scores;
        medium_risk_clauses := count (fun s => (60 <=? s) && (s <? 75)) scores;
        clauses_analysis := analysis;
        summary := summary_of (count (fun s => s <? 60) scores);
        llm_enhanced := use_llm;
        timestamp := utf8 "2024-01-01 10:00:00" |}.
Proof.
  intros Hcounts Hscores Hne.
  unfold _generate_report, _generate_summary. rewrite Hcounts, Hscores.
  destruct analysis as [|a rest]; [congruence|]. reflexivity.
Qed.

(** Reading a list of analyses stops at the first that cannot be read. *)
Lemma mapM_result_raise {A B} (f : A -> result B) (l : list A) (x : A) (e : exn) :
  In x l -> f x = Raise e -> exists e', mapM f l = Raise e'.
Proof.
  intros Hin Hx. induction l as [|y l IH]; [destruct Hin|].
  rewrite mapM_result_cons. destruct Hin as [->|Hin].
  - rewrite Hx. now exists e.
  - destruct (f y) as [b|e0]; [|now exists e0].
    destruct (IH Hin) as [e' ->]. now exists e'.
Qed.

Lemma mapM_result_length {A B} (f : A -> result B) (l : list A) (k : list B) :
  mapM f l = Ok k -> length k = length l.
Proof.
  revert k. induction l as [|x l IH]; intros k H.
  - injection H as <-. reflexivity.
  - rewrite mapM_result_cons in H. destruct (f x) as [b|e]; [|discriminate].
    cbn in H. destruct (mapM f l) as [k'|e]; [|discriminate].
    cbn in H. injection H as <-. simpl. now rewrite (IH k').
Qed.

Lemma mapM_result_map {A B} (f : A -> result B) (g : A -> B) (l : list A) :
  (forall x, In x l -> f x = Ok (g x)) -> mapM f l = Ok (map g l).
Proof.
  intros Hfg. induction l as [|x l IH]; [reflexivity|].
  rewrite mapM_result_cons, (Hfg x) by now left.
  rewrite IH; [reflexivity|]. intros y Hy. apply Hfg. now right.
Qed.

(** X12: [_generate_report] returns no report when an analysis lacks the
    key [risks] or the key [risk_score], or holds a string under
    [risk_score]: it raises ([KeyError], [TypeError]). *)
Theorem report_needs_both_keys :
  forall use_llm analysis a,
    In a analysis ->
    a !! utf8 "risks" = None \/ a !! utf8 "risk_score" = None \/
    (exists s, a !! utf8 "risk_score" = Some (VStr s)) ->
    exists e, _generate_report use_llm analysis = Raise e.
Proof.
  intros use_llm analysis a Hin Hbad. unfold _generate_report.
  destruct (risk_counts analysis) as [counts|e] eqn:Hc; [|now exists e].
  assert (Hs : exists e, risk_scores analysis = Raise e).
  { destruct Hbad as [Hr|[Hs|[s Hs]]].
    - exfalso. unfold risk_counts in Hc.
      destruct (mapM_result_raise
                  (fun c => v ← getitem c (utf8 "risks"); len v) analysis a
                  (KeyError (utf8 "risks")) Hin) as [e' He'].
      { unfold getitem. now rewrite Hr. }
      congruence.
    - apply (mapM_result_raise _ analysis a (KeyError (utf8 "risk_score")) Hin).
      unfold getitem. now rewrite Hs.
    - apply (mapM_result_raise _ analysis a TypeError Hin).
      unfold getitem. now rewrite Hs. }
  destruct Hs as [e ->]. now exists e.
Qed.

Lemma report_needs_both_keys_witness :
  exists e, _generate_report false [∅] = Raise e.
Proof.
  apply (report_needs_both_keys false [∅] ∅); [now left|left; reflexivity].
Defined.

Lemma count_le_length (p : Z -> bool) (scores : list Z) :
  (count p scores <= length scores)%nat.
Proof. unfold count. apply filter_length_le. Qed.

(** X13: when every clause analysis holds an integer under [risk_score]
    (a reply of the model can put a float there, [NaN] included; such an
    analysis is outside this statement) and findings under [risks], the
    aggregator returns a report and the dashboard reads it. Its three
    counts add up to the number of clauses; its high count is the report's;
    its medium count is the report's plus the clauses scoring 75 to 79,
    which the report counts nowhere. *)
Theorem dashboard_counts :
  forall use_llm analysis counts scores,
    risk_counts analysis = Ok counts ->
    Forall2 (fun clause score => clause !! utf8 "risk_score" = Some (VInt score))
      analysis scores ->
    analysis <> [] ->
    exists r low medium high,
      _generate_report use_llm analysis = Ok r /\
      ContractAIWeb.display_risk_chart r = Ok (low, medium, high) /\
      (low + medium + high = total_clauses r)%nat /\
      high = high_risk_clauses r /\
      (medium = medium_risk_clauses r
                + count (fun s => (75 <=? s) && (s <? 80))%Z scores)%nat.
Proof.
  intros use_llm analysis counts scores Hc Hint Hne.
  assert (Hs : risk_scores analysis = Ok scores).
  { clear Hc Hne. unfold risk_scores.
    induction Hint as [|clause score rest others Hscore _ IH]; [reflexivity|].
    rewrite mapM_result_cons, IH. unfold getitem. rewrite Hscore. reflexivity. }
  rewrite (generate_report_value use_llm analysis counts scores Hc Hs Hne).
  eexists _, _, _, _. split; [reflexivity|].
  unfold ContractAIWeb.display_risk_chart. cbn [clauses_analysis]. rewrite Hs.
  split; [reflexivity|]. cbn [total_clauses high_risk_clauses medium_risk_clauses].
  pose proof (buckets_with_gap scores) as Hb.
  unfold risk_scores in Hs. apply mapM_result_length in Hs.
  assert (Hm : (count (fun s => (60 <=? s) && (s <? 80))%Z scores
                = count (fun s => (60 <=? s) && (s <? 75))%Z scores
                  + count (fun s => (75 <=? s) && (s <? 80))%Z scores)%nat).
  { clear. unfold count. induction scores as [|s rest IH]; [reflexivity|].
    cbn [List.filter].
    destruct (60 <=? s) eqn:E1, (s <? 80) eqn:E2, (s <? 75) eqn:E3, (75 <=? s) eqn:E4;
      cbn [andb length]; lia. }
  repeat split; lia.
Qed.

Lemma dashboard_counts_witness :
  exists r low medium high,
    _generate_report false
      [<[utf8 "risk_score" := VInt 75]> (<[utf8 "risks" := VRisks []]> ∅)] = Ok r /\
    ContractAIWeb.display_risk_chart r = Ok (low, medium, high) /\
    (low + medium + high = total_clauses r)%nat /\
    high = high_risk_clauses r /\
    (medium = medium_risk_clauses r
              + count (fun s => (75 <=? s) && (s <? 80))%Z [75%Z])%nat.
Proof.
  apply (dashboard_counts false
           [<[utf8 "risk_score" := VInt 75]> (<[utf8 "risks" := VRisks []]> ∅)]
           [0] [75]).
  - vm_compute. reflexivity.
  - constructor; [|constructor]. vm_compute. reflexivity.
  - discriminate.
Defined.

End reports.

(** ** The pipeline without enrichment, and with a well-behaved one *)

Section pipeline.

Import FixedLangChainContractAdvisor.

Lemma score_bounds (risks : list risk) : 30 <= _calculate_risk_score risks <= 85.
Proof.
  rewrite score_formula.
  pose proof (count_level_nonneg high risks).
  pose proof (count_level_nonneg medium risks). lia.
Qed.

Lemma score_85_iff (risks : list risk) :
  _calculate_risk_score risks = 85 <-> risks = [].
Proof.
  split; [|now intros ->].
  destruct risks as [|r rest]; [reflexivity|]. rewrite score_formula.
  pose proof (reduction_positive r rest). lia.
Qed.

Lemma sum_bounds (lo hi : Z) (scores : list Z) :
  Forall (fun s => lo <= s <= hi) scores ->
  lo * Z.of_nat (length scores) <= sum scores <= hi * Z.of_nat (length scores).
Proof.
  induction 1 as [|s scores Hs _ IH]; [simpl; lia|].
  cbn [sum fold_right length]. fold (sum scores). lia.
Qed.

Lemma average_bounds (lo hi : Z) (scores : list Z) :
  scores <> [] -> Forall (fun s => lo <= s <= hi) scores ->
  lo <= sum scores / Z.of_nat (length scores) <= hi.
Proof.
  intros Hne Hall. pose proof (sum_bounds lo hi scores Hall) as [Hlo Hhi].
  assert (Hn : 0 < Z.of_nat (length scores)) by (destruct scores; [congruence|simpl; lia]).
  split.
  - apply Z.div_le_lower_bound; lia.
  - apply Z.div_le_upper_bound; lia.
Qed.

Lemma sum_upper (hi : Z) (scores : list Z) :
  Forall (fun s => s <= hi) scores -> sum scores <= hi * Z.of_nat (length scores).
Proof.
  induction 1 as [|s scores Hs _ IH]; [simpl; lia|].
  cbn [sum fold_right length]. fold (sum scores). lia.
Qed.

(** Scores that are at most [hi] and add up to [hi] each are all [hi]. *)
Lemma sum_all_top (hi : Z) (scores : list Z) :
  Forall (fun s => s <= hi) scores ->
  hi * Z.of_nat (length scores) <= sum scores ->
  Forall (fun s => s = hi) scores.
Proof.
  induction 1 as [|s scores Hs Hall IH]; intros Hsum; [constructor|].
  cbn [sum fold_right length] in Hsum. fold (sum scores) in Hsum.
  pose proof (sum_upper hi scores Hall) as Hrest.
  constructor; [lia|]. apply IH. lia.
Qed.

Local Abbreviation score_of :=
  (fun c : clause => _calculate_risk_score (_detect_detailed_risks (clause_content c))).
Local Abbreviation findings_of :=
  (fun c : clause => _detect_detailed_risks (clause_content c)).
Local Abbreviation clean :=
  (Forall (fun c : clause => _detect_detailed_risks (clause_content c) = [])).

Lemma count_findings (clauses : list clause) :
  sum (map (fun c => Z.of_nat (length (findings_of c))) clauses)
  = Z.of_nat (length (flat_map findings_of clauses)).
Proof.
  induction clauses as [|c rest IH]; [reflexivity|].
  cbn [map sum fold_right flat_map]. fold (sum (map (fun c => Z.of_nat (length (findings_of c))) rest)).
  rewrite length_app, IH. lia.
Qed.

Lemma no_finding_iff_clean (clauses : list clause) :
  flat_map findings_of clauses = [] <-> clean clauses.
Proof.
  induction clauses as [|c rest IH]; [split; [constructor|reflexivity]|].
  cbn [flat_map]. split.
  - intros H. apply app_eq_nil in H as [Hc Hrest]. constructor; [exact Hc|now apply IH].
  - intros H. inversion H as [|? ? Hc Hrest]; subst. rewrite Hc. now apply IH.
Qed.

Lemma average_85_iff_clean (clauses : list clause) :
  clauses <> [] ->
  sum (map score_of clauses) / Z.of_nat (length clauses) = 85 <-> clean clauses.
Proof.
  intros Hne.
  assert (Hn : 0 < Z.of_nat (length clauses)) by (destruct clauses; [congruence|simpl; lia]).
  split.
  - intros Havg.
    assert (Hall : Forall (fun s => s = 85) (map score_of clauses)).
    { apply sum_all_top.
      - apply Forall_map, Forall_true. intros c. apply (score_bounds (findings_of c)).
      - rewrite length_map, <- Havg, Z.mul_comm. apply Z.mul_div_le. exact Hn. }
    apply Forall_map in Hall. eapply Forall_impl; [exact Hall|].
    intros c Hc. now apply score_85_iff.
  - intros Hclean.
    assert (Hsum : sum (map score_of clauses) = 85 * Z.of_nat (length clauses)).
    { clear Hne Hn. induction Hclean as [|c rest Hc _ IH]; [reflexivity|].
      cbn [map sum fold_right length]. fold (sum (map score_of rest)).
      rewrite IH, Hc. cbn [_calculate_risk_score truthy negb]. lia. }
    rewrite Hsum. apply Z.div_mul. lia.
Qed.

Lemma clean_counts (p : Z -> bool) (clauses : list clause) :
  p 85 = false -> clean clauses -> count p (map score_of clauses) = 0%nat.
Proof.
  intros Hp Hclean. unfold count. induction Hclean as [|c rest Hc _ IH]; [reflexivity|].
  cbn [map List.filter]. rewrite Hc. cbn [_calculate_risk_score truthy negb].
  now rewrite Hp.
Qed.

(** The report of the clauses analysed without enrichment. *)
Lemma bare_report (advisor : str -> str -> list risk -> result dict) (b : bool)
    (documents : list document) :
  documents <> [] ->
  risk_counts (map (analyze_clause false advisor b) (split_into_clauses documents))
    = Ok (map (fun c => Z.of_nat (length (findings_of c))) (split_into_clauses documents)) /\
  risk_scores (map (analyze_clause false advisor b) (split_into_clauses documents))
    = Ok (map score_of (split_into_clauses documents)) /\
  map (analyze_clause false advisor b) (split_into_clauses documents) <> [].
Proof.
  intros Hne.
  destruct (bare_analyses_readable advisor b (split_into_clauses documents)) as [Hs Hc].
  split; [exact Hc|]. split; [exact Hs|].
  pose proof (split_into_clauses_nonempty documents Hne) as H.
  destruct (split_into_clauses documents); [congruence|discriminate].
Qed.

(** X14: without enrichment the analysis of at least one paragraph returns
    a report: one entry per clause, at least one; an overall score from 30
    to 85; the findings of all clauses counted; the high and medium counts
    within the clause count; [llm_enhanced] off. *)
Theorem report_without_enrichment :
  forall advisor use_llm_for_high_risk doc rest,
    exists r,
      analyze_documents false advisor (doc :: rest) use_llm_for_high_risk = Ok r /\
      total_clauses r = length (split_into_clauses (doc :: rest)) /\
      (1 <= total_clauses r)%nat /\
      30 <= overall_risk_score r <= 85 /\
      total_risks_found r
      = Z.of_nat (length (flat_map findings_of (split_into_clauses (doc :: rest)))) /\
      (high_risk_clauses r + medium_risk_clauses r <= total_clauses r)%nat /\
      llm_enhanced r = false.
Proof.
  intros advisor b doc rest.
  destruct (bare_report advisor b (doc :: rest)) as (Hc & Hs & Hne); [discriminate|].
  unfold analyze_documents.
  rewrite (generate_report_value false _ _ _ Hc Hs Hne).
  eexists. split; [reflexivity|].
  cbn [total_clauses overall_risk_score total_risks_found high_risk_clauses
       medium_risk_clauses llm_enhanced].
  rewrite length_map.
  assert (Hn : split_into_clauses (doc :: rest) <> []).
  { apply split_into_clauses_nonempty. discriminate. }
  split; [reflexivity|].
  split; [destruct (split_into_clauses (doc :: rest)); [congruence|simpl; lia]|].
  split.
  { rewrite <- (length_map score_of). apply average_bounds.
    - destruct (split_into_clauses (doc :: rest)); [congruence|discriminate].
    - apply Forall_map, Forall_true. intros c. apply score_bounds. }
  split; [apply count_findings|]. split; [|reflexivity].
  pose proof (buckets_with_gap (map score_of (split_into_clauses (doc :: rest)))) as Hb.
  rewrite length_map in Hb. lia.
Qed.

(** X15: without enrichment the overall score is 85 exactly when no clause
    has a finding; the report then has the low tier, no high-risk and no
    medium-risk clause, and the first of the three summaries. *)
Theorem clean_report_iff_no_finding :
  forall advisor use_llm_for_high_risk doc rest,
    exists r,
      analyze_documents false advisor (doc :: rest) use_llm_for_high_risk = Ok r /\
      (overall_risk_score r = 85 <-> total_risks_found r = 0) /\
      (total_risks_found r = 0 ->
       WorkingContractAI.risk_level r = utf8 "低风险" /\
       high_risk_clauses r = 0%nat /\ medium_risk_clauses r = 0%nat /\
       summary r = utf8 "合同整体风险可控，建议关注个别中风险条款。").
Proof.
  intros advisor b doc rest.
  destruct (bare_report advisor b (doc :: rest)) as (Hc & Hs & Hne); [discriminate|].
  unfold analyze_documents.
  rewrite (generate_report_value false _ _ _ Hc Hs Hne).
  eexists. split; [reflexivity|].
  cbn [total_clauses overall_risk_score total_risks_found high_risk_clauses
       medium_risk_clauses WorkingContractAI.risk_level summary].
  rewrite length_map, count_findings.
  assert (Hn : split_into_clauses (doc :: rest) <> []).
  { apply split_into_clauses_nonempty. discriminate. }
  assert (Hzero : Z.of_nat (length (flat_map findings_of (split_into_clauses (doc :: rest)))) = 0
                  <-> clean (split_into_clauses (doc :: rest))).
  { rewrite <- no_finding_iff_clean.
    destruct (flat_map findings_of (split_into_clauses (doc :: rest)));
      simpl; split; try congruence; lia. }
  split.
  - rewrite Hzero. now apply average_85_iff_clean.
  - intros Hclean. apply Hzero in Hclean.
    rewrite (proj2 (average_85_iff_clean _ Hn) Hclean).
    rewrite !clean_counts by (reflexivity || exact Hclean).
    repeat split.
Qed.

Lemma content_from_nil (path : str) (paragraphs : list str) : forall i : Z,
  content_from path i paragraphs = [] <->
  forallb (fun p => negb (truthy (strip p))) paragraphs = true.
Proof.
  induction paragraphs as [|p rest IH]; intros i; [split; reflexivity|].
  cbn [content_from forallb]. destruct (truthy (strip p)); cbn [negb andb].
  - split; discriminate.
  - apply IH.
Qed.

(** X16: what [analyze_contract] returns, by what the file holds. A file
    that cannot be read gives the error dict with the reader's exception
    under the loader's prefix; a file whose paragraphs are all blank gives
    the error dict of the division by zero; without enrichment every other
    file gives a report. *)
Theorem analyze_contract_outcome :
  forall use_llm advisor docx_paragraphs file_path use_llm_for_high_risk,
    match docx_paragraphs file_path with
    | Raise e =>
        analyze_contract use_llm advisor docx_paragraphs file_path use_llm_for_high_risk
        = Error (Wrapped (utf8 "解析Word文档失败: ") e)
    | Ok paragraphs =>
        if forallb (fun p => negb (truthy (strip p))) paragraphs then
          analyze_contract use_llm advisor docx_paragraphs file_path use_llm_for_high_risk
          = Error ZeroDivisionError
        else
          exists r,
            analyze_contract false advisor docx_paragraphs file_path use_llm_for_high_risk
            = Report r
    end.
Proof.
  intros use_llm advisor rd path b. unfold analyze_contract, load_contract.
  destruct (rd path) as [paragraphs|e]; [|reflexivity].
  cbv [mbind result_bind].
  destruct (forallb (fun p => negb (truthy (strip p))) paragraphs) eqn:Hblank.
  - apply content_from_nil with (path := path) (i := 0) in Hblank.
    rewrite Hblank. reflexivity.
  - assert (Hne : content_from path 0 paragraphs <> []).
    { intros H. apply content_from_nil in H. congruence. }
    destruct (analyze_documents_returns advisor b _ Hne) as (r & -> & _).
    now exists r.
Qed.

End pipeline.

(** ** The advisor's own analyses *)

Section advisor_paths.

Import FixedLangChainContractAdvisor.

Lemma fallback_suggestions_loop_one (risks : list risk) :
  fallback_suggestions_loop risks = [] \/
  exists s,
    fallback_suggestions_loop risks = [s] /\
    In s [utf8 "建议明确付款时间和条件：'验收合格后15个工作日内支付剩余款项'";
          utf8 "建议具体化验收标准：参照具体的技术规格和验收 checklist";
          utf8 "建议明确违约金计算方式和上限";
          utf8 "建议选择中立的管辖法院"].
Proof.
  induction risks as [|r rest IH]; [now left|]. cbn [fallback_suggestions_loop].
  destruct (any_in _ (description r));
    [right; eexists; split; [reflexivity|left; reflexivity]|].
  destruct (any_in _ (description r));
    [right; eexists; split; [reflexivity|right; left; reflexivity]|].
  destruct (contains _ (description r));
    [right; eexists; split; [reflexivity|do 2 right; left; reflexivity]|].
  destruct (contains _ (description r));
    [right; eexists; split; [reflexivity|do 3 right; left; reflexivity]|].
  exact IH.
Qed.

(** X17: [_generate_fallback_suggestions] returns exactly one suggestion
    whatever the findings: the loop stops at the first finding it has a
    suggestion for, and the default fills in when there is none. *)
Theorem fallback_suggestion_is_single :
  forall risks,
    exists s,
      _generate_fallback_suggestions risks = [s] /\
      In s [utf8 "建议明确付款时间和条件：'验收合格后15个工作日内支付剩余款项'";
            utf8 "建议具体化验收标准：参照具体的技术规格和验收 checklist";
            utf8 "建议明确违约金计算方式和上限";
            utf8 "建议选择中立的管辖法院";
            utf8 "建议由专业法务人员审查此条款"].
Proof.
  intros risks. unfold _generate_fallback_suggestions.
  destruct (fallback_suggestions_loop_one risks) as [->|(s & -> & Hs)].
  - eexists. split; [reflexivity|]. do 4 right. left. reflexivity.
  - exists s. split; [reflexivity|].
    apply (in_or_app [_; _; _; _] [_]). left. exact Hs.
Qed.

Local Abbreviation tiers := [utf8 "中风险"; utf8 "高风险"; utf8 "低风险"].

Lemma extract_line_keeps (st : extracted) (raw : str) :
  In (risk_level st) tiers ->
  (risk_analysis st <> [] -> (10 < length (risk_analysis st))%nat) ->
  In (risk_level (extract_line st raw)) tiers /\
  (risk_analysis (extract_line st raw) <> [] ->
   (10 < length (risk_analysis (extract_line st raw)))%nat).
Proof.
  intros Hl Ha. unfold extract_line.
  destruct (negb (truthy (strip raw)) || startswith (utf8 "{") (strip raw)
            || startswith (utf8 "}") (strip raw)); [now split|].
  destruct (contains (utf8 "风险") (strip raw) && (10 <? length (strip raw))%nat) eqn:E.
  { cbn [risk_level risk_analysis]. split; [exact Hl|]. intros _.
    apply andb_true_iff in E as [_ E]. now apply Nat.ltb_lt in E. }
  destruct (contains (utf8 "建议") _ || _);
    [split; cbn [risk_level risk_analysis]; assumption|].
  destruct (contains (utf8 "法律") _ || _);
    [split; cbn [risk_level risk_analysis]; assumption|].
  destruct (contains (utf8 "谈判") _ || _);
    [split; cbn [risk_level risk_analysis]; assumption|].
  destruct (contains (utf8 "高风险") _);
    [split; cbn [risk_level risk_analysis]; [right; left; reflexivity|assumption]|].
  destruct (contains (utf8 "低风险") _);
    [split; cbn [risk_level risk_analysis]; [do 2 right; left; reflexivity|assumption]|].
  now split.
Qed.

Lemma extract_lines_keep (lines : list str) : forall st : extracted,
  In (risk_level st) tiers ->
  (risk_analysis st <> [] -> (10 < length (risk_analysis st))%nat) ->
  In (risk_level (fold_left extract_line lines st)) tiers /\
  (risk_analysis (fold_left extract_line lines st) <> [] ->
   (10 < length (risk_analysis (fold_left extract_line lines st)))%nat).
Proof.
  induction lines as [|raw lines IH]; intros st Hl Ha; [now split|].
  cbn [fold_left]. destruct (extract_line_keeps st raw Hl Ha) as [Hl' Ha'].
  now apply IH.
Qed.

(** X18: what [_extract_from_text] returns on any text: the six fields, of
    which [specific_risks] is always the empty list; one to three
    suggestions; one of the three tiers; and an analysis text that is empty
    only for the empty reply. *)
Theorem extract_from_text_shape :
  forall text,
    exists ra ms lb nt rl,
      _extract_from_text text = fields ra [] ms lb nt rl /\
      (1 <= length ms <= 3)%nat /\
      In rl [utf8 "中风险"; utf8 "高风险"; utf8 "低风险"] /\
      (ra = [] <-> text = []).
Proof.
  intros text. unfold _extract_from_text.
  set (st0 := {| risk_analysis := [];
                 modification_suggestions := [];
                 legal_basis := utf8 "基于标准合同审查规范";
                 negotiation_tips := utf8 "建议明确关键商业条款";
                 risk_level := utf8 "中风险" |}).
  destruct (extract_lines_keep (split newline text) st0) as [Hl Ha].
  { left. reflexivity. }
  { intros H. now destruct H. }
  set (st := fold_left extract_line (split newline text) st0) in *.
  eexists _, _, _, _, _. split; [reflexivity|]. split; [|split; [exact Hl|]].
  - destruct (modification_suggestions st) as [|m1 [|m2 [|m3 more]]]; simpl; lia.
  - destruct (risk_analysis st) as [|c ra] eqn:Era; cbn [truthy].
    + destruct (300 <? length text)%nat eqn:E300.
      * split.
        -- intros H. apply app_eq_nil in H as [_ H]. vm_compute in H. discriminate H.
        -- intros ->. discriminate E300.
      * reflexivity.
    + split; [discriminate|]. intros ->. subst st. vm_compute in Era. discriminate Era.
Qed.

Lemma fields_risk_level (ra : str) (sr ms : list str) (lb nt rl : str) :
  fields ra sr ms lb nt rl !! utf8 "risk_level" = Some (VStr rl).
Proof. vm_compute. reflexivity. Qed.

Lemma levels_add_up (risks : list risk) :
  count_level high risks + count_level medium risks = Z.of_nat (length risks).
Proof.
  induction risks as [|r rest IH]; [reflexivity|].
  rewrite !count_level_cons. cbn [length]. destruct (level r); simpl; lia.
Qed.

Lemma tier_low_iff (score : Z) : _get_risk_level score = utf8 "低风险" <-> 80 <= score.
Proof.
  unfold _get_risk_level. destruct (80 <=? score) eqn:E80.
  - split; [lia|reflexivity].
  - split; [|lia]. destruct (60 <=? score); intros H; vm_compute in H; discriminate H.
Qed.

Ltac differ := let H := fresh "H" in intros H; vm_compute in H; discriminate H.

(** X19: the tier of [_fallback_analysis] goes by the number of findings
    (more than three: high; none: low). Where it says high the scorer's tier
    is high as well, and it says low exactly where the scorer's tier is low;
    between one and three findings it says medium whatever the score. *)
Theorem fallback_tier_against_score :
  forall list_set clause_content risks,
    exists tier,
      _fallback_analysis list_set clause_content risks !! utf8 "risk_level"
        = Some (VStr tier) /\
      (tier = utf8 "高风险" <-> (3 < length risks)%nat) /\
      (tier = utf8 "高风险" ->
       _get_risk_level (_calculate_risk_score risks) = utf8 "高风险") /\
      (tier = utf8 "低风险" <->
       _get_risk_level (_calculate_risk_score risks) = utf8 "低风险").
Proof.
  intros list_set content risks. unfold _fallback_analysis.
  eexists. split; [apply fields_risk_level|].
  pose proof (levels_add_up risks) as Hsum.
  pose proof (count_level_nonneg high risks) as Hh.
  pose proof (count_level_nonneg medium risks) as Hm.
  rewrite tier_low_iff, score_formula.
  destruct (3 <? length risks)%nat eqn:E3.
  - apply Nat.ltb_lt in E3. split; [|split].
    + split; [intros _; exact E3|reflexivity].
    + intros _. apply tier_high. lia.
    + split; [differ|intros; lia].
  - apply Nat.ltb_ge in E3. destruct risks as [|r rest]; cbn [truthy].
    + split; [|split].
      * split; [differ|simpl; lia].
      * differ.
      * split; [intros _; vm_compute; discriminate|reflexivity].
    + pose proof (reduction_positive r rest) as Hr. split; [|split].
      * split; [differ|lia].
      * differ.
      * split; [differ|intros; lia].
Qed.

End advisor_paths.

(** ** Enrichment that leaves the score alone *)

Section kept_figures.

Import FixedLangChainContractAdvisor.

Local Abbreviation score_of :=
  (fun c : clause => _calculate_risk_score (_detect_detailed_risks (clause_content c))).
Local Abbreviation findings_of :=
  (fun c : clause => _detect_detailed_risks (clause_content c)).

(** The figures of a report: all of it but the analyses themselves and
    [llm_enhanced]. *)
Local Abbreviation figures :=
  (fun r : report =>
     (overall_risk_score r, WorkingContractAI.risk_level r, total_clauses r,
      total_risks_found r, high_risk_clauses r, medium_risk_clauses r, summary r)).

(** A reply without the keys [risk_score] and [risks] leaves both as the
    scorer and the detector set them. *)
Lemma enriched_lookup (use_llm : bool) (advisor : str -> str -> list risk -> result dict)
    (b : bool) (c : clause) :
  (forall content title found llm,
     advisor content title found = Ok llm ->
     llm !! utf8 "risk_score" = None /\ llm !! utf8 "risks" = None) ->
  analyze_clause use_llm advisor b c !! utf8 "risk_score" = Some (VInt (score_of c)) /\
  analyze_clause use_llm advisor b c !! utf8 "risks" = Some (VRisks (findings_of c)).
Proof.
  intros Hadv.
  destruct (bare_analysis_lookup c (_basic_risk_analysis c)) as (Hr & Hs & _).
  unfold analyze_clause.
  destruct (use_llm && (negb b || (risk_score (_basic_risk_analysis c) <? 70)));
    [|split; assumption].
  destruct (advisor (clause_content c) (clause_title (clause_meta c))
              (risks (_basic_risk_analysis c))) as [llm|e] eqn:E; [|split; assumption].
  destruct (Hadv _ _ _ _ E) as [Hns Hnr].
  rewrite !merged_reply_keeps by assumption. split; assumption.
Qed.

Lemma read_scores (f : clause -> dict) (clauses : list clause) :
  (forall c, f c !! utf8 "risk_score" = Some (VInt (score_of c))) ->
  risk_scores (map f clauses) = Ok (map score_of clauses).
Proof.
  intros Hf. unfold risk_scores.
  induction clauses as [|c rest IH]; [reflexivity|].
  cbn [map]. rewrite mapM_result_cons, IH. unfold getitem. rewrite Hf. reflexivity.
Qed.

Lemma read_counts (f : clause -> dict) (clauses : list clause) :
  (forall c, f c !! utf8 "risks" = Some (VRisks (findings_of c))) ->
  risk_counts (map f clauses)
  = Ok (map (fun c => Z.of_nat (length (findings_of c))) clauses).
Proof.
  intros Hf. unfold risk_counts.
  induction clauses as [|c rest IH]; [reflexivity|].
  cbn [map]. rewrite mapM_result_cons, IH. unfold getitem. rewrite Hf. reflexivity.
Qed.

(** The figures depend on the analyses through the scores and the finding
    counts read in them, and their number. *)
Lemma report_figures_by_scores (u1 u2 : bool) (a1 a2 : list dict) :
  risk_counts a1 = risk_counts a2 -> risk_scores a1 = risk_scores a2 ->
  length a1 = length a2 ->
  figures <$> _generate_report u1 a1 = figures <$> _generate_report u2 a2.
Proof.
  intros Hc Hs Hl. unfold _generate_report, _generate_summary. rewrite Hc, Hs, Hl.
  destruct (risk_counts a2) as [counts|e]; [|reflexivity].
  destruct (risk_scores a2) as [scores|e]; [|reflexivity].
  cbv [mbind result_bind]. destruct (length a2 =? 0)%nat; reflexivity.
Qed.

(** X20: when no reply of the enrichment capability holds the key
    [risk_score] or the key [risks], every clause keeps the score of the
    scorer and the findings of the detector under every policy, and the
    report has the figures of the run without enrichment: overall score,
    tier, the four counts and the summary. *)
Theorem enrichment_without_score_key_keeps_figures :
  forall use_llm advisor use_llm_for_high_risk documents,
    (forall content title found llm,
       advisor content title found = Ok llm ->
       llm !! utf8 "risk_score" = None /\ llm !! utf8 "risks" = None) ->
    Forall (fun c =>
              analyze_clause use_llm advisor use_llm_for_high_risk c !! utf8 "risk_score"
                = Some (VInt (score_of c)) /\
              analyze_clause use_llm advisor use_llm_for_high_risk c !! utf8 "risks"
                = Some (VRisks (findings_of c)))
      (split_into_clauses documents) /\
    figures <$> analyze_documents use_llm advisor documents use_llm_for_high_risk
    = figures <$> analyze_documents false advisor documents use_llm_for_high_risk.
Proof.
  intros use_llm advisor b documents Hadv. split.
  - apply Forall_true. intros c. now apply enriched_lookup.
  - unfold analyze_documents. apply report_figures_by_scores.
    + rewrite !read_counts; [reflexivity| |]; intros c; now apply enriched_lookup.
    + rewrite !read_scores; [reflexivity| |]; intros c; now apply enriched_lookup.
    + now rewrite !length_map.
Qed.

Lemma enrichment_without_score_key_keeps_figures_witness :
  Forall (fun c =>
            analyze_clause true offline_advisor true c !! utf8 "risk_score"
              = Some (VInt (score_of c)) /\
            analyze_clause true offline_advisor true c !! utf8 "risks"
              = Some (VRisks (findings_of c)))
    (split_into_clauses two_articles_documents) /\
  figures <$> analyze_documents true offline_advisor two_articles_documents true
  = figures <$> analyze_documents false offline_advisor two_articles_documents true.
Proof.
  apply (enrichment_without_score_key_keeps_figures true offline_advisor true
           two_articles_documents).
  intros content title found llm H.
  unfold offline_advisor, fixed_advisor, analyze_clause_with_llm, unreachable_chain,
    _fallback_analysis in H.
  injection H as <-. split; apply fields_keys.
Defined.

(** X21: under the policy that sends only high-risk clauses to the model, a
    clause scoring 70 or more is never sent: its analysis is the
    deterministic one, with none of the six enrichment fields, and the
    dashboard gives it the green icon of the low tier whatever the tier of
    its score. *)
Theorem clause_scoring_70_is_not_enriched :
  forall use_llm advisor c,
    70 <= risk_score (_basic_risk_analysis c) ->
    analyze_clause use_llm advisor true c
      = merge (clause_items c) (basic_items (_basic_risk_analysis c)) /\
    Forall (fun field => analyze_clause use_llm advisor true c !! field = None)
      required_fields /\
    ContractAIWebApp.risk_color (analyze_clause use_llm advisor true c)
      = Ok (utf8 "🟢").
Proof.
  intros use_llm advisor c Hscore.
  assert (E : analyze_clause use_llm advisor true c
              = merge (clause_items c) (basic_items (_basic_risk_analysis c))).
  { unfold analyze_clause.
    assert (Hlt : (risk_score (_basic_risk_analysis c) <? 70) = false)
      by now apply Z.ltb_ge.
    rewrite Hlt. cbn [negb orb]. now rewrite andb_false_r. }
  rewrite E. split; [reflexivity|]. split.
  - apply bare_analysis_lookup.
  - unfold ContractAIWebApp.risk_color, ContractAIWebApp.get.
    assert (Hnone : merge (clause_items c) (basic_items (_basic_risk_analysis c))
                    !! utf8 "risk_level" = None) by (vm_compute; reflexivity).
    rewrite Hnone. vm_compute. reflexivity.
Qed.

Lemma clause_scoring_70_is_not_enriched_witness :
  analyze_clause true reply_advisor true Examples.keyword_clause
    = merge (clause_items Examples.keyword_clause)
        (basic_items (_basic_risk_analysis Examples.keyword_clause)) /\
  Forall (fun field =>
            analyze_clause true reply_advisor true Examples.keyword_clause !! field = None)
    required_fields /\
  ContractAIWebApp.risk_color (analyze_clause true reply_advisor true Examples.keyword_clause)
    = Ok (utf8 "🟢").
Proof.
  apply (clause_scoring_70_is_not_enriched true reply_advisor Examples.keyword_clause).
  vm_compute. discriminate.
Defined.

End kept_figures.

(** ** The keyword screen against the detector *)

Section keyword_screen.

Import KeywordScreen.

(** A keyword list of the screen found in the content gives a keyword
    finding of the rule whose keywords extend it. *)
Lemma screen_hit (content t : str) (entry : str * rule) (kws extra : list str) :
  In entry _load_risk_rules ->
  any_in kws content = true ->
  keywords (snd entry) = kws ++ extra ->
  name (snd entry) = t ->
  exists f, In f (_detect_detailed_risks content) /\ risk_type f = t /\ level f = medium.
Proof.
  intros Hentry Hany Hkws Hname. unfold any_in in Hany.
  apply existsb_exists in Hany as (kw & Hkw & Hc).
  exists {| risk_type := name (snd entry);
            level := medium;
            description := utf8 "发现关键词: " ++ kw;
            position := _find_keyword_position content kw;
            category := fst entry |}.
  split; [|now split]. apply in_detect. exists entry. split; [exact Hentry|].
  apply in_rule_risks. left. exists kw. split; [|now split].
  rewrite Hkws. apply in_or_app. now left.
Qed.

Lemma risks_found_length (content : str) : (length (risks_found content) <= 5)%nat.
Proof.
  unfold risks_found, risk_keywords. cbn [flat_map].
  repeat match goal with
         | |- context [if ?b then _ else _] => destruct b
         end; cbn [app length]; lia.
Qed.

Lemma screen_refined (content : str) :
  Forall (fun t =>
            In t [utf8 "财务风险"; utf8 "交付风险"; utf8 "法律风险"] ->
            (exists f, In f (_detect_detailed_risks content) /\
                       risk_type f = t /\ level f = medium) /\
            _calculate_risk_score (_detect_detailed_risks content) <= 75)
    (risks_found content).
Proof.
  apply List.Forall_forall. intros t Ht Hshared.
  assert (Hf : exists f, In f (_detect_detailed_risks content) /\
                         risk_type f = t /\ level f = medium).
  { unfold risks_found in Ht. apply in_flat_map in Ht as (entry & Hentry & Ht).
    unfold risk_keywords in Hentry. cbn [In] in Hentry.
    destruct Hentry as [<-|[<-|[<-|[<-|[<-|[]]]]]]; cbn [fst snd] in Ht;
      match type of Ht with
      | In _ (if ?b then _ else _) => destruct b eqn:Hany; [|destruct Ht]
      end; destruct Ht as [<-|[]].
    - eapply screen_hit; [left; reflexivity|exact Hany|reflexivity|reflexivity].
    - eapply screen_hit; [right; left; reflexivity|exact Hany|reflexivity|reflexivity].
    - eapply screen_hit;
        [right; right; left; reflexivity|exact Hany|reflexivity|reflexivity].
    - exfalso. cbn [In] in Hshared.
      destruct Hshared as [H|[H|[H|[]]]]; vm_compute in H; discriminate H.
    - exfalso. cbn [In] in Hshared.
      destruct Hshared as [H|[H|[H|[]]]]; vm_compute in H; discriminate H. }
  split; [exact Hf|]. destruct Hf as (f & Hin & _ & Hl).
  pose proof (count_level_in medium f _ Hin Hl).
  pose proof (count_level_nonneg high (_detect_detailed_risks content)).
  rewrite score_formula. lia.
Qed.

Lemma screened_lookup (c : clause) (found : list str) (tier : str) :
  merge (clause_items c)
    (<[utf8 "risks" := VList (map VStr found)]>
     (<[utf8 "risk_level" := VStr tier]> ∅)) !! utf8 "risks"
  = Some (VList (map VStr found)).
Proof. vm_compute. reflexivity. Qed.

(** X22: [analyze_risks] returns one dict per clause, in order, whose
    [risks] are at most five types. Each of the types 财务风险, 交付风险 and
    法律风险 it reports for a clause is also found by the detector, as a
    keyword finding of that type, so the clause scores at most 75: the
    screen's keywords of these types are the first keywords of the rule
    table. *)
Theorem keyword_screen_is_refined :
  forall clauses,
    Forall2 (fun c a =>
               exists found,
                 a !! utf8 "risks" = Some (VList (map VStr found)) /\
                 (length found <= 5)%nat /\
                 Forall (fun t =>
                           In t [utf8 "财务风险"; utf8 "交付风险"; utf8 "法律风险"] ->
                           (exists f, In f (_detect_detailed_risks (clause_content c)) /\
                                      risk_type f = t /\ level f = medium) /\
                           _calculate_risk_score
                             (_detect_detailed_risks (clause_content c)) <= 75)
                   found)
      clauses (analyze_risks clauses).
Proof.
  intros clauses. unfold analyze_risks.
  induction clauses as [|c rest IH]; [constructor|].
  cbn [map]. constructor; [|exact IH].
  exists (risks_found (clause_content c)). split; [apply screened_lookup|].
  split; [apply risks_found_length|apply screen_refined].
Qed.

End keyword_screen.

(** ** ContractAISystem *)

Section system_history.

Import ContractAISystem.

Lemma split_free (c : N) (s : str) : Forall (fun piece => ~ In c piece) (split c s).
Proof.
  induction s as [|x s IH]; [repeat constructor; intros []|].
  cbn [split]. destruct (x =? c)%N eqn:E.
  - constructor; [intros []|exact IH].
  - destruct (split_cons c s) as (h & t & Hs). rewrite Hs in IH |- *.
    inversion IH as [|? ? Hh Ht]; subst. constructor; [|exact Ht].
    intros [->|Hin]; [|now apply Hh]. now rewrite N.eqb_refl in E.
Qed.

(** Joining the pieces of a split gives the text back. *)
Lemma join_split (c : N) (s : str) : join [c] (split c s) = s.
Proof.
  induction s as [|x s IH]; [reflexivity|]. cbn [split].
  destruct (split_cons c s) as (h & t & Hs). rewrite Hs in IH |- *.
  destruct (x =? c)%N eqn:E.
  - apply N.eqb_eq in E as ->.
    change (join [c] ([] :: h :: t)) with ([] ++ [c] ++ join [c] (h :: t)).
    now rewrite IH.
  - destruct t as [|h' t].
    + simpl in IH |- *. now rewrite IH.
    + change (join [c] ((x :: h) :: h' :: t))
        with (x :: (h ++ [c] ++ join [c] (h' :: t))).
      change (join [c] (h :: h' :: t)) with (h ++ [c] ++ join [c] (h' :: t)) in IH.
      now rewrite IH.
Qed.

Lemma join_last (sep : str) (l : list str) (d : str) :
  l <> [] -> exists dir, join sep l = dir ++ List.last l d.
Proof.
  induction l as [|x l IH]; [congruence|]. intros _.
  destruct l as [|y l].
  - now exists [].
  - destruct IH as [dir Hdir]; [discriminate|].
    exists (x ++ sep ++ dir).
    change (join sep (x :: y :: l)) with (x ++ sep ++ join sep (y :: l)).
    change (List.last (x :: y :: l) d) with (List.last (y :: l) d).
    now rewrite Hdir, <- !app_assoc.
Qed.

Lemma last_Forall {A} (P : A -> Prop) (l : list A) (d : A) :
  Forall P l -> P d -> P (List.last l d).
Proof.
  induction 1 as [|x l Hx Hl IH]; intros Hd; [exact Hd|].
  destruct l as [|y l]; [exact Hx|]. now apply IH.
Qed.

(** [basename] is the end of the path and holds no slash. *)
Lemma basename_end (path : str) :
  (exists dir, path = dir ++ basename path) /\ ~ In 47%N (basename path).
Proof.
  unfold basename. split.
  - destruct (join_last [47%N] (split 47%N path) []) as [dir Hdir].
    { destruct (split_cons 47%N path) as (h & t & ->). discriminate. }
    exists dir. now rewrite <- Hdir, join_split.
  - apply last_Forall; [apply split_free|intros []].
Qed.

(** X23: [analyze_contract_file] hands back what [analyze_contract] gives
    under the default policy. An error dict is returned as it is and nothing
    is recorded. A report is returned with the file's base name (the end of
    the path, with no slash) and is appended to the history, which
    [get_analysis_history] returns. *)
Theorem analyze_contract_file_records :
  forall llm_advisor docx_paragraphs (world : Type) now save file_path save_report st,
    match analyze_contract_file llm_advisor docx_paragraphs world now save
            file_path save_report st with
    | (Analysed r, st') =>
        analyze_contract true llm_advisor docx_paragraphs file_path true
          = Report (analysis r) /\
        get_analysis_history world st' = get_analysis_history world st ++ [r] /\
        (exists dir, file_path = dir ++ file_name r) /\
        ~ In 47%N (file_name r)
    | (Failed e, st') =>
        analyze_contract true llm_advisor docx_paragraphs file_path true = Error e /\
        st' = st
    end.
Proof.
  intros advisor rd world now save path save_report st.
  unfold analyze_contract_file.
  destruct (analyze_contract true advisor rd path true) as [r|e]; [|now split].
  destruct (now (outside world st)) as [timestamp w].
  cbn [analysis file_name get_analysis_history analysis_history].
  split; [reflexivity|]. split; [reflexivity|]. apply basename_end.
Qed.

Lemma compare_fold llm_advisor docx_paragraphs (world : Type) now save
    (file_paths : list str) : forall (data : list comparison_row) (st : system world),
  exists added,
    analysis_history world
      (snd (fold_left (compare_step llm_advisor docx_paragraphs world now save)
              file_paths (data, st)))
    = analysis_history world st ++ added /\
    (length added <= length file_paths)%nat /\
    Forall (fun r => In (file_name r) (map basename file_paths)) added.
Proof.
  induction file_paths as [|path rest IH]; intros data st.
  - exists []. cbn [fold_left snd]. rewrite app_nil_r. repeat split; [simpl; lia|constructor].
  - cbn [fold_left]. unfold compare_step at 2. unfold analyze_contract_file.
    destruct (analyze_contract true llm_advisor docx_paragraphs path true) as [r|e].
    + destruct (now (outside world st)) as [timestamp w].
      match goal with
      | |- context [fold_left _ rest (?d, ?s)] => destruct (IH d s) as (added & Hh & Hl & Hn)
      end.
      cbn [analysis_history] in Hh.
      eexists (_ :: added). split; [rewrite Hh, <- app_assoc; reflexivity|].
      split; [simpl; lia|]. constructor.
      * cbn [file_name map In]. now left.
      * eapply Forall_impl; [exact Hn|]. intros fr Hfr. now right.
    + destruct (IH data st) as (added & Hh & Hl & Hn).
      exists added. split; [exact Hh|]. split; [simpl; lia|].
      eapply Forall_impl; [exact Hn|]. intros fr Hfr. now right.
Qed.

(** X24: [generate_comparison_report] never completes: after the files have
    been analysed it looks up [_generate_comparison_text], which the class
    does not have, and fails with [AttributeError]. By then the reports of
    the files that could be analysed have been appended to the history, at
    most one per path and each under the base name of a path. *)
Theorem comparison_report_fails_after_analysis :
  forall llm_advisor docx_paragraphs (world : Type) now save file_paths st,
    fst (generate_comparison_report llm_advisor docx_paragraphs world now save
           file_paths st)
    = inl (AttributeError (utf8 "_generate_comparison_text")) /\
    exists added,
      analysis_history world
        (snd (generate_comparison_report llm_advisor docx_paragraphs world now save
                file_paths st))
      = analysis_history world st ++ added /\
      (length added <= length file_paths)%nat /\
      Forall (fun r => In (file_name r) (map basename file_paths)) added.
Proof.
  intros advisor rd world now save paths st.
  pose proof (compare_fold advisor rd world now save paths [] st) as Hfold.
  unfold generate_comparison_report.
  destruct (fold_left (compare_step advisor rd world now save) paths ([], st))
    as [data st'].
  cbn [fst snd] in *. split; [vm_compute; reflexivity|exact Hfold].
Qed.

End system_history.

(** ** Paragraphs inside clauses *)

Section whole_paragraphs.

Local Abbreviation infix := (fun t piece : str => exists pre post, piece = pre ++ t ++ post).

(** Some piece of the list holds the text. *)
Local Abbreviation held :=
  (fun (t : str) (l : list str) => exists piece, In piece l /\ infix t piece).

Local Abbreviation pieces st :=
  (map clause_content (clauses st) ++ current_main_clause st ++ current_sub_clauses st).

Lemma infix_refl (t : str) : infix t t.
Proof. exists [], []. now rewrite app_nil_r. Qed.

Lemma held_app (t : str) (a b : list str) : held t (a ++ b) <-> held t a \/ held t b.
Proof.
  split.
  - intros (piece & Hin & Hp). apply in_app_or in Hin as [Hin|Hin];
      [left|right]; now exists piece.
  - intros [(piece & Hin & Hp)|(piece & Hin & Hp)]; exists piece;
      (split; [apply in_or_app; auto|exact Hp]).
Qed.

(** What a piece holds, the join of the pieces holds. *)
Lemma held_join (t : str) (l : list str) : held t l -> infix t (join [newline] l).
Proof.
  induction l as [|x l IH]; intros (piece & Hin & pre & post & Hp); [destruct Hin|].
  destruct l as [|y l].
  - destruct Hin as [->|[]]. now exists pre, post.
  - change (join [newline] (x :: y :: l)) with (x ++ [newline] ++ join [newline] (y :: l)).
    destruct Hin as [->|Hin].
    + exists pre, (post ++ [newline] ++ join [newline] (y :: l)).
      rewrite Hp. now rewrite <- !app_assoc.
    + destruct IH as (pre' & post' & ->); [exists piece; split; [exact Hin|now exists pre, post]|].
      exists (x ++ [newline] ++ pre'), post'. now rewrite <- !app_assoc.
Qed.

Lemma held_append_to_last (t text : str) (subs : list str) :
  held t subs -> held t (append_to_last subs text).
Proof.
  induction subs as [|s rest IH]; intros (piece & Hin & pre & post & Hp); [destruct Hin|].
  destruct rest as [|s' rest'].
  - destruct Hin as [<-|[]]. exists (s ++ [newline] ++ text). split; [now left|].
    exists pre, (post ++ [newline] ++ text). rewrite Hp. now rewrite <- !app_assoc.
  - change (append_to_last (s :: s' :: rest') text)
      with (s :: append_to_last (s' :: rest') text).
    destruct Hin as [<-|Hin].
    + exists s. split; [now left|now exists pre, post].
    + destruct IH as (piece' & Hin' & Hp');
        [exists piece; split; [exact Hin|now exists pre, post]|].
      exists piece'. split; [now right|exact Hp'].
Qed.

Lemma appended_to_last (text : str) (subs : list str) :
  subs <> [] -> held text (append_to_last subs text).
Proof.
  induction subs as [|s rest IH]; [congruence|]. intros _.
  destruct rest as [|s' rest'].
  - exists (s ++ [newline] ++ text). split; [now left|].
    exists (s ++ [newline]), []. now rewrite app_nil_r, <- app_assoc.
  - change (append_to_last (s :: s' :: rest') text)
      with (s :: append_to_last (s' :: rest') text).
    destruct IH as (piece & Hin & Hp); [discriminate|].
    exists piece. split; [now right|exact Hp].
Qed.

(** An iteration keeps what the state holds and adds the paragraph. *)
Lemma step_holds (st : state) (doc : document) :
  (forall t, held t (pieces st) -> held t (pieces (step st doc))) /\
  held (page_content doc) (pieces (step st doc)).
Proof.
  unfold step. destruct (_is_main_clause (page_content doc)).
  - cbn [clauses current_main_clause current_sub_clauses]. split.
    + intros t Ht. apply held_app. left.
      apply held_app in Ht as [Ht|Ht].
      * destruct (truthy (current_main_clause st) || truthy (current_sub_clauses st));
          [|exact Ht].
        rewrite map_app. apply held_app. now left.
      * destruct (truthy (current_main_clause st) || truthy (current_sub_clauses st)) eqn:Hacc.
        -- rewrite map_app. apply held_app. right.
           exists (join [newline] (current_main_clause st ++ current_sub_clauses st)).
           split; [now left|]. now apply held_join.
        -- apply orb_false_iff in Hacc as [Hm Hs].
           destruct (current_main_clause st); [|discriminate].
           destruct (current_sub_clauses st); [|discriminate].
           destruct Ht as (piece & [] & _).
    + apply held_app. right. exists (page_content doc). split; [now left|apply infix_refl].
  - destruct (_is_sub_clause (page_content doc)).
    + cbn [clauses current_main_clause current_sub_clauses]. split.
      * intros t Ht. apply held_app in Ht as [Ht|Ht]; apply held_app; [now left|right].
        apply held_app in Ht as [Ht|Ht]; apply held_app; [now left|right].
        apply held_app. now left.
      * apply held_app. right. apply held_app. right. apply held_app. right.
        exists (page_content doc). split; [now left|apply infix_refl].
    + destruct (truthy (current_sub_clauses st)) eqn:Hs;
        cbn [clauses current_main_clause current_sub_clauses]; split.
      * intros t Ht. apply held_app in Ht as [Ht|Ht]; apply held_app; [now left|right].
        apply held_app in Ht as [Ht|Ht]; apply held_app; [now left|right].
        now apply held_append_to_last.
      * apply held_app. right. apply held_app. right.
        apply appended_to_last. destruct (current_sub_clauses st); [discriminate|congruence].
      * intros t Ht. apply held_app in Ht as [Ht|Ht]; apply held_app; [now left|right].
        apply held_app in Ht as [Ht|Ht]; apply held_app; [left|now right].
        apply held_app. now left.
      * apply held_app. right. apply held_app. left. apply held_app. right.
        exists (page_content doc). split; [now left|apply infix_refl].
Qed.

Lemma fold_holds (docs : list document) : forall st : state,
  (forall t, held t (pieces st) -> held t (pieces (fold_left step docs st))) /\
  Forall (fun d => held (page_content d) (pieces (fold_left step docs st))) docs.
Proof.
  induction docs as [|doc rest IH]; intros st; [split; [auto|constructor]|].
  cbn [fold_left]. destruct (step_holds st doc) as [Hkeep Hadd].
  destruct (IH (step st doc)) as [Hkeep' Hall]. split.
  - intros t Ht. auto.
  - constructor; [now apply Hkeep'|exact Hall].
Qed.

(** The final flush turns the pieces into clause bodies. *)
Lemma finish_holds (t : str) (doc : document) (rest : list document) :
  held t (pieces (fold_left step (doc :: rest) initial)) ->
  held t (map clause_content (split_into_clauses (doc :: rest))).
Proof.
  intros Ht. unfold split_into_clauses. cbn [fold_left] in *.
  rewrite finish_after_step, map_app. cbn [map make_clause clause_content].
  apply held_app. apply held_app in Ht as [Ht|Ht]; [now left|right].
  exists (join [newline]
            (current_main_clause (fold_left step rest (step initial doc)) ++
             current_sub_clauses (fold_left step rest (step initial doc)))).
  split; [now left|now apply held_join].
Qed.

(** X25: every paragraph is whole inside one clause: its text is a part of
    the body of a clause, and that clause scores no higher than the
    paragraph taken alone. *)
Theorem paragraph_is_whole_in_a_clause :
  forall documents,
    Forall (fun d =>
              exists c,
                In c (split_into_clauses documents) /\
                (exists before after,
                   clause_content c = before ++ page_content d ++ after) /\
                _calculate_risk_score (_detect_detailed_risks (clause_content c))
                <= _calculate_risk_score (_detect_detailed_risks (page_content d)))
      documents.
Proof.
  intros [|doc rest]; [constructor|].
  destruct (fold_holds (doc :: rest) initial) as [_ Hall].
  eapply Forall_impl; [exact Hall|]. intros d Hd. cbv beta in Hd.
  apply finish_holds in Hd as (body & Hin & before & after & Hbody).
  apply in_map_iff in Hin as (c & <- & Hc).
  exists c. split; [exact Hc|]. split; [now exists before, after|].
  rewrite Hbody, !score_formula.
  pose proof (detect_counts_extend high before (page_content d) after).
  pose proof (detect_counts_extend medium before (page_content d) after). lia.
Qed.

End whole_paragraphs.

(** ** The report is consistent with itself *)

Section consistent_report.

Lemma generate_report_inv (use_llm : bool) (analysis : list dict) (r : report) :
  _generate_report use_llm analysis = Ok r ->
  exists counts scores,
    risk_counts analysis = Ok counts /\ risk_scores analysis = Ok scores /\
    analysis <> [] /\ _generate_report use_llm analysis = Ok r.
Proof.
  intros H. pose proof H as H'. unfold _generate_report in H.
  destruct (risk_counts analysis) as [counts|e]; [|discriminate].
  destruct (risk_scores analysis) as [scores|e]; [|discriminate].
  exists counts, scores. repeat split; try assumption.
  intros ->. discriminate H.
Qed.

Lemma len_nonneg (v : value) (n : Z) : len v = Ok n -> 0 <= n.
Proof. destruct v; simpl; intros H; try discriminate; injection H as <-; lia. Qed.

Lemma risk_counts_nonneg (analysis : list dict) (counts : list Z) :
  risk_counts analysis = Ok counts -> 0 <= sum counts.
Proof.
  unfold risk_counts. revert counts.
  induction analysis as [|a rest IH]; intros counts H.
  - injection H as <-. simpl. lia.
  - rewrite mapM_result_cons in H. cbv [mbind result_bind mret result_ret] in H.
    unfold getitem in H.
    destruct (a !! utf8 "risks") as [v|]; [|discriminate H].
    destruct (len v) as [n|e] eqn:Hn; [|discriminate H].
    destruct (mapM _ rest) as [k|e] eqn:Hk; [|discriminate H].
    injection H as <-. cbn [sum fold_right]. fold (sum k).
    pose proof (len_nonneg v n Hn). specialize (IH k eq_refl). lia.
Qed.

(** X26: a report the aggregator returns is consistent with itself: its
    tier is the tier of its overall score, its clause count is the number of
    analyses it carries (at least one), the summary goes by its own count of
    high-risk clauses (none, one or two, more), the high and medium counts
    fit in the clause count, and the number of findings is not negative. *)
Theorem report_is_consistent :
  forall use_llm analysis,
    match _generate_report use_llm analysis with
    | Ok r =>
        WorkingContractAI.risk_level r = _get_risk_level (overall_risk_score r) /\
        total_clauses r = length (clauses_analysis r) /\
        (1 <= total_clauses r)%nat /\
        summary r =
          (if (high_risk_clauses r =? 0)%nat then
             utf8 "合同整体风险可控，建议关注个别中风险条款。"
           else if (high_risk_clauses r <=? 2)%nat then
             utf8 "合同存在少量高风险条款，建议重点审查付款条件、违约责任等条款。"
           else utf8 "合同存在多处高风险条款，建议法务部门重点审查。") /\
        (high_risk_clauses r + medium_risk_clauses r <= total_clauses r)%nat /\
        0 <= total_risks_found r /\
        llm_enhanced r = use_llm
    | Raise _ => True
    end.
Proof.
  intros use_llm analysis.
  destruct (_generate_report use_llm analysis) as [r|e] eqn:E; [|exact I].
  destruct (generate_report_inv _ _ _ E) as (counts & scores & Hc & Hs & Hne & _).
  rewrite (generate_report_value use_llm analysis counts scores Hc Hs Hne) in E.
  injection E as <-.
  cbn [WorkingContractAI.risk_level overall_risk_score total_clauses clauses_analysis
       summary high_risk_clauses medium_risk_clauses total_risks_found llm_enhanced].
  split; [reflexivity|]. split; [reflexivity|].
  split; [destruct analysis; [congruence|simpl; lia]|].
  split; [reflexivity|].
  split; [|split; [now apply (risk_counts_nonneg analysis)|reflexivity]].
  pose proof (buckets_with_gap scores) as Hb.
  unfold risk_scores in Hs. apply mapM_result_length in Hs. lia.
Qed.

End consistent_report.

(** ** What the advisor always returns *)

Section advisor_replies.

Import FixedLangChainContractAdvisor.

Lemma has_key_is_Some (d : dict) (k : str) : has_key d k = true -> is_Some (d !! k).
Proof. unfold has_key. destruct (d !! k) as [v|]; [now exists v|discriminate]. Qed.

Lemma extract_keys (text : str) :
  Forall (fun field => is_Some (_extract_from_text text !! field)) required_fields.
Proof.
  unfold _extract_from_text. cbv zeta. apply (proj1 (fields_keys _ _ _ _ _ _)).
Qed.

Lemma fallback_keys (list_set : list str -> list str) (content : str) (risks : list risk) :
  Forall (fun field => is_Some (_fallback_analysis list_set content risks !! field))
    required_fields.
Proof. unfold _fallback_analysis. apply (proj1 (fields_keys _ _ _ _ _ _)). Qed.

(** X27: whatever the model replies and whatever the libraries return, the
    dict [analyze_clause_with_llm] returns holds the six required fields:
    the parsed object is returned only when it has them, and the two other
    paths build them. *)
Theorem advisor_reply_has_six_fields :
  forall chain_invoke re_search_group re_sub json_loads list_set
         clause_content clause_title risks,
    Forall (fun field =>
              is_Some (analyze_clause_with_llm chain_invoke re_search_group re_sub
                         json_loads list_set clause_content clause_title risks
                       !! field))
      required_fields.
Proof.
  intros chain search sub loads list_set content title risks.
  unfold analyze_clause_with_llm.
  destruct (chain (_build_complete_prompt content title risks)) as [response|e];
    [|apply fallback_keys].
  unfold _parse_llm_response.
  destruct (search _ (strip response)) as [json_str|]; [|apply extract_keys].
  destruct (loads (_clean_json_string sub json_str)) as [result|e]; [|apply extract_keys].
  destruct (forallb (has_key result) required_fields) eqn:Hall; [|apply extract_keys].
  apply List.Forall_forall. intros field Hfield.
  apply has_key_is_Some. rewrite forallb_forall in Hall. now apply Hall.
Qed.

End advisor_replies.

(** ** The clauses a report lists as analysed by the model *)

Section llm_section.

Import FixedLangChainContractAdvisor ContractAISystem.

Lemma rule_risks_length (content risk_id : str) (r : rule) :
  (length (rule_risks content risk_id r) <= length (keywords r) + length (patterns r))%nat.
Proof.
  unfold rule_risks. rewrite length_app.
  apply Nat.add_le_mono.
  - induction (keywords r) as [|kw kws IH]; [simpl; lia|].
    cbn [flat_map]. rewrite length_app. destruct (contains kw content); simpl in *; lia.
  - induction (patterns r) as [|p ps IH]; [simpl; lia|].
    cbn [flat_map]. rewrite length_app. destruct (re_search (fst p) content); simpl in *; lia.
Qed.

(** The table has twenty-four keywords and nine patterns. *)
Lemma detect_length (content : str) :
  (length (_detect_detailed_risks content) <= 33)%nat.
Proof.
  unfold _detect_detailed_risks, _load_risk_rules. cbn [flat_map fst snd].
  rewrite !length_app.
  repeat match goal with
         | |- context [length (rule_risks content ?i ?r)] =>
             let H := fresh "H" in
             pose proof (rule_risks_length content i r) as H;
             cbn [keywords patterns length] in H;
             generalize dependent (length (rule_risks content i r)); intros
         end.
  simpl. lia.
Qed.

Lemma digits_small (n : nat) : (n <= 33)%nat -> (length (str_of_nat n) <= 2)%nat.
Proof.
  intros H. do 34 (destruct n as [|n]; [vm_compute; lia|]). lia.
Qed.

Lemma join_length (sep : str) (m : nat) (l : list str) :
  Forall (fun x => (length x <= m)%nat) l ->
  (length (join sep l) <= length l * (m + length sep))%nat.
Proof.
  induction 1 as [|x l Hx Hl IH]; [simpl; lia|].
  destruct l as [|y l].
  - simpl. lia.
  - change (join sep (x :: y :: l)) with (x ++ sep ++ join sep (y :: l)).
    rewrite !length_app. cbn [length] in *. lia.
Qed.

(** The types of the findings are names of the table. *)
Lemma detect_types (content : str) (f : risk) :
  In f (_detect_detailed_risks content) ->
  In (risk_type f) (map (fun entry : str * rule => name (snd entry)) _load_risk_rules).
Proof.
  intros Hf. apply in_detect in Hf as (entry & Hentry & Hf).
  apply in_map_iff. exists entry. split; [|exact Hentry].
  apply in_rule_risks in Hf as [(kw & _ & _ & ->)|(p & _ & _ & ->)]; reflexivity.
Qed.

Lemma fields_risk_analysis (ra : str) (sr ms : list str) (lb nt rl : str) :
  fields ra sr ms lb nt rl !! utf8 "risk_analysis" = Some (VStr ra).
Proof. vm_compute. reflexivity. Qed.

(** The analysis text of the fallback on the findings of the detector
    has at most 31 characters. *)
Lemma fallback_text_short (list_set : list str -> list str) (content : str) :
  (forall l, List.NoDup (list_set l) /\ forall x, In x (list_set l) -> In x l) ->
  (length (utf8 "识别到" ++ str_of_nat (length (_detect_detailed_risks content)) ++
           utf8 "个风险点，涉及：" ++
           join (utf8 ", ") (list_set (map risk_type (_detect_detailed_risks content))))
   <= 31)%nat.
Proof.
  intros Hset.
  destruct (Hset (map risk_type (_detect_detailed_risks content))) as [Hnodup Hincl].
  set (types := list_set (map risk_type (_detect_detailed_risks content))) in *.
  assert (Hnames : incl types
                     (map (fun entry : str * rule => name (snd entry)) _load_risk_rules)).
  { intros t Ht. apply Hincl in Ht. apply in_map_iff in Ht as (f & <- & Hf).
    now apply detect_types in Hf. }
  assert (Hlen : (length types <= 3)%nat).
  { apply (NoDup_incl_length Hnodup) in Hnames. exact Hnames. }
  assert (Hfour : Forall (fun t => (length t <= 4)%nat) types).
  { apply List.Forall_forall. intros t Ht. apply Hnames in Ht.
    cbn [map _load_risk_rules In snd name] in Ht.
    destruct Ht as [<-|[<-|[<-|[]]]]; vm_compute; lia. }
  pose proof (join_length (utf8 ", ") 4 types Hfour) as Hjoin.
  pose proof (digits_small _ (detect_length content)) as Hdigits.
  rewrite !length_app.
  change (length (utf8 "识别到")) with 3%nat.
  change (length (utf8 "个风险点，涉及：")) with 8%nat.
  change (length (utf8 ", ")) with 2%nat in Hjoin. nia.
Qed.

(** A clause analysed while the model cannot be reached does not pass the
    test. *)
Lemma offline_clause_not_listed (use_llm : bool)
    (chain : prompt -> result str) (re_search_group : str -> str -> option str)
    (re_sub : str -> str -> str -> str) (json_loads : str -> result dict)
    (list_set : list str -> list str) (b : bool) (c : clause) :
  (forall p, exists e, chain p = Raise e) ->
  (forall l, List.NoDup (list_set l) /\ forall x, In x (list_set l) -> In x l) ->
  is_llm_clause
    (analyze_clause use_llm (fixed_advisor chain re_search_group re_sub json_loads list_set)
       b c) = Ok false.
Proof.
  intros Hchain Hset. unfold analyze_clause.
  destruct (use_llm && (negb b || (risk_score (_basic_risk_analysis c) <? 70))).
  - unfold fixed_advisor, analyze_clause_with_llm.
    destruct (Hchain (_build_complete_prompt (clause_content c)
                        (clause_title (clause_meta c))
                        (risks (_basic_risk_analysis c)))) as [e ->].
    unfold _fallback_analysis, is_llm_clause.
    erewrite merged_reply_shadows by apply fields_risk_analysis.
    cbn [len mbind result_bind mret result_ret].
    pose proof (fallback_text_short list_set (clause_content c) Hset) as Hshort.
    cbn [_basic_risk_analysis risks].
    f_equal. apply Z.ltb_ge. lia.
  - unfold is_llm_clause.
    destruct (bare_analysis_lookup c (_basic_risk_analysis c)) as (_ & _ & Hnone).
    inversion Hnone as [|? ? Hra _]; subst. now rewrite Hra.
Qed.

(** X28: while the model cannot be reached, no clause passes the test of
    the text report for a clause analysed by the model (a [risk_analysis] of
    more than fifty characters): the fallback's analysis text on the findings
    of the detector is too short, given that [list(set(...))] returns the
    given types without repeats. The section of the report for these clauses
    is empty under every policy. *)
Theorem offline_report_lists_no_llm_clause :
  forall use_llm chain_invoke re_search_group re_sub json_loads list_set
         use_llm_for_high_risk clauses,
    (forall p, exists e, chain_invoke p = Raise e) ->
    (forall l, List.NoDup (list_set l) /\ forall x, In x (list_set l) -> In x l) ->
    llm_clauses
      (map (analyze_clause use_llm
              (fixed_advisor chain_invoke re_search_group re_sub json_loads list_set)
              use_llm_for_high_risk) clauses)
    = Ok [].
Proof.
  intros use_llm chain search sub loads list_set b clauses Hchain Hset.
  induction clauses as [|c rest IH]; [reflexivity|].
  cbn [map llm_clauses].
  rewrite (offline_clause_not_listed use_llm chain search sub loads list_set b c Hchain Hset).
  rewrite IH. reflexivity.
Qed.

Lemma offline_report_lists_no_llm_clause_witness :
  llm_clauses
    (map (analyze_clause true
            (fixed_advisor unreachable_chain reply_search reply_sub reply_loads
               (nodup (List.list_eq_dec N.eq_dec)))
            true) (split_into_clauses two_articles_documents))
  = Ok [].
Proof.
  apply (offline_report_lists_no_llm_clause true unreachable_chain reply_search reply_sub
           reply_loads (nodup (List.list_eq_dec N.eq_dec)) true
           (split_into_clauses two_articles_documents)).
  - intros p. exists (Exception (utf8 "connection refused")). reflexivity.
  - intros l. split; [apply List.NoDup_nodup|]. intros x Hx. now apply nodup_In in Hx.
Defined.

End llm_section.
